(** * Flappy Kiro: the simulation engine and the session controller

    A shallow embedding of [FlappyKiroGame] (the engine: physics, wall
    generation, scrolling, retirement, collisions) and of [FlappyKiroApp]
    (the screen controller with its username gate and score submission),
    followed by the properties of the two that the design document states.

    Numbers.  A JavaScript number is an IEEE 754 binary64 value.  The
    vertical axis (position, velocity, gravity, gap offsets) carries
    fractions such as 0.3, so it is modelled with Rocq's primitive
    binary64 floats and every sum is rounded as the browser rounds it.
    The horizontal axis only ever holds integers: walls are born at
    [canvas.width] (an unsigned long of the DOM) and move by the integer
    wall speeds 2, 3 or 4 until they pass -60, and the score counts up from
    0 by one.  Binary64 is exact on integers below 2^53 in magnitude,
    which these stay (the score for some 10^17 frames), and they are
    modelled in [Z]. *)

From Stdlib Require Import ZArith List String Ascii Bool Lia.
From Stdlib Require Import Sorting.Sorted Sorting.Permutation.
From Stdlib Require Import Floats.PrimFloat Numbers.Cyclic.Int63.Uint63.
Import ListNotations.

Set Warnings "-inexact-float".
Local Open Scope string_scope.
Local Open Scope list_scope.
Local Open Scope Z_scope.

(** ** Values that leave the program *)

(** A JavaScript value as it appears in a telemetry record, an event
    detail or a request body. *)
Inductive JsVal : Type :=
| JInt (z : Z)
| JNum (f : float)
| JStr (s : string)
| JUndefined.

(** An object literal: its fields in the order they are written. *)
Definition JsObj : Type := list (string * JsVal).

Fixpoint field (k : string) (o : JsObj) : option JsVal :=
  match o with
  | [] => None
  | (k', v) :: o' => if String.eqb k k' then Some v else field k o'
  end.

(** What a method does to the world outside its own object. *)
Inductive Effect : Type :=
| Log (level message : string) (data : JsObj)
| DispatchEvent (type : string) (detail : JsObj)
| AddKeydownListener
| RemoveKeydownListener
| PreventDefault
| Render
| RequestAnimationFrame
| Alert (message : string)
| Fetch (method url : string) (body : JsObj).

Inductive JsError : Type :=
| TypeError (property : string).

(** How a call ends: normally, or by an exception that leaves the object
    as it was when the exception was raised. *)
Inductive Completion (A : Type) : Type :=
| Normal (a : A) (out : list Effect)
| Throw (e : JsError) (a : A) (out : list Effect).
Arguments Normal {A} a out.
Arguments Throw {A} e a out.

Definition state_of {A} (c : Completion A) : A :=
  match c with Normal a _ | Throw _ a _ => a end.

Definition effects_of {A} (c : Completion A) : list Effect :=
  match c with Normal _ o | Throw _ _ o => o end.

Definition throws {A} (c : Completion A) : bool :=
  match c with Normal _ _ => false | Throw _ _ _ => true end.

Definition Z2float (z : Z) : float := PrimFloat.of_uint63 (Uint63.of_Z z).

(** ** Data of the engine *)

Module Ghosty.
Record t : Type := mk {
  x : Z;
  y : float;
  width : Z;
  height : float;
  velocity : float
}.
End Ghosty.

Module Wall.
Record t : Type := mk {
  x : Z;
  topHeight : float;
  bottomY : float;
  bottomHeight : float;
  width : Z;
  scored : bool
}.
Definition set_x (w : t) (x' : Z) : t :=
  mk x' (topHeight w) (bottomY w) (bottomHeight w) (width w) (scored w).
Definition set_scored (w : t) (b : bool) : t :=
  mk (x w) (topHeight w) (bottomY w) (bottomHeight w) (width w) b.
End Wall.

Module Config.
Record t : Type := mk {
  gravity : float;
  jumpStrength : float;
  wallSpeed : Z;
  gapSize : float;
  wallSpacing : Z
}.
End Config.

(** The size of the canvas element: two unsigned longs of the DOM, below
    2^32, which [Z2float] turns into the same number as a binary64. *)
Record Canvas : Type := { canvas_width : Z; canvas_height : Z }.

(** ** The engine, [FlappyKiroGame] *)

Module Game.

Record t : Type := mk {
  width : Z;
  height : float;
  ghosty : Ghosty.t;
  walls : list Wall.t;
  score : Z;
  gameRunning : bool;
  gameOver : bool;
  lastWallX : Z;
  difficulty : option string;
  config : option Config.t
}.

Definition easy : Config.t := Config.mk 0.3 (-6) 2 200 300.
Definition medium : Config.t := Config.mk 0.4 (-7) 3 160 280.
Definition hard : Config.t := Config.mk 0.5 (-8) 4 120 250.

(** [setupDifficulties]: the entries of the table.  [this.difficulties[name]]
    reads an entry for the three keys and [undefined] for a name that is
    no property of the table object.  For a name the object inherits from
    [Object.prototype] the read gives the inherited value, which is no
    profile: [Plain.lookup] below tells the three cases apart, and what is
    said of the bound profile is said of calls that pass no such name
    ([Plain.reachable]). *)
Definition difficulties (name : string) : option Config.t :=
  if String.eqb name "easy" then Some easy
  else if String.eqb name "medium" then Some medium
  else if String.eqb name "hard" then Some hard
  else None.

Definition set_ghosty (s : t) (g : Ghosty.t) : t :=
  mk (width s) (height s) g (walls s) (score s) (gameRunning s)
     (gameOver s) (lastWallX s) (difficulty s) (config s).
Definition set_walls (s : t) (ws : list Wall.t) : t :=
  mk (width s) (height s) (ghosty s) ws (score s) (gameRunning s)
     (gameOver s) (lastWallX s) (difficulty s) (config s).
Definition set_score (s : t) (n : Z) : t :=
  mk (width s) (height s) (ghosty s) (walls s) n (gameRunning s)
     (gameOver s) (lastWallX s) (difficulty s) (config s).
Definition set_gameRunning (s : t) (b : bool) : t :=
  mk (width s) (height s) (ghosty s) (walls s) (score s) b
     (gameOver s) (lastWallX s) (difficulty s) (config s).
Definition set_gameOver (s : t) (b : bool) : t :=
  mk (width s) (height s) (ghosty s) (walls s) (score s) (gameRunning s)
     b (lastWallX s) (difficulty s) (config s).
Definition set_lastWallX (s : t) (x : Z) : t :=
  mk (width s) (height s) (ghosty s) (walls s) (score s) (gameRunning s)
     (gameOver s) x (difficulty s) (config s).
Definition set_velocity (s : t) (v : float) : t :=
  let g := ghosty s in
  set_ghosty s (Ghosty.mk (Ghosty.x g) (Ghosty.y g) (Ghosty.width g)
                          (Ghosty.height g) v).

Definition difficulty_val (s : t) : JsVal :=
  match difficulty s with Some d => JStr d | None => JUndefined end.

(** [reset]. *)
Definition reset (s : t) : t :=
  mk (width s) (height s)
     (Ghosty.mk 100 (height s / 2)%float 40 40 0)
     [] 0 false false (width s) (difficulty s) (config s).

(** [constructor]: the canvas size is read, [reset] runs and the table is
    set up; no difficulty is bound yet. *)
Definition constructor (canvas : Canvas) : t :=
  reset (mk (canvas_width canvas) (Z2float (canvas_height canvas))
            (Ghosty.mk 0 0 0 0 0) [] 0 false false 0 None None).

(** [setDifficulty]. *)
Definition setDifficulty (s : t) (d : string) : t * list Effect :=
  (mk (width s) (height s) (ghosty s) (walls s) (score s) (gameRunning s)
      (gameOver s) (lastWallX s) (Some d) (difficulties d),
   [Log "info" "Difficulty set" [("difficulty", JStr d)]]).

(** [stop]. *)
Definition stop (s : t) : t * list Effect :=
  (set_gameRunning s false,
   [RemoveKeydownListener;
    Log "info" "Game ended"
        [("score", JInt (score s)); ("difficulty", difficulty_val s)]]).

(** [jump]: reads [this.config.jumpStrength]. *)
Definition jump (s : t) : Completion t :=
  match config s with
  | None => Throw (TypeError "jumpStrength") s []
  | Some c =>
      Normal (set_velocity s (Config.jumpStrength c))
             [Log "debug" "Ghosty jumped"
                  [("velocity", JNum (Config.jumpStrength c))]]
  end.

(** [handleKeyPress], on an event whose [code] is given. *)
Definition handleKeyPress (s : t) (code : string) : Completion t :=
  if String.eqb code "Space" && gameRunning s && negb (gameOver s) then
    match jump s with
    | Normal s' o => Normal s' (PreventDefault :: o)
    | Throw e s' o => Throw e s' (PreventDefault :: o)
    end
  else Normal s [].

(** [generateWall]; [rnd] is the value [Math.random()] returns. *)
Definition generateWall (c : Config.t) (rnd : float) (s : t) : t :=
  let gapY := (rnd * (height s - Config.gapSize c - 100) + 50)%float in
  let wall :=
    Wall.mk (width s) gapY (gapY + Config.gapSize c)%float
            (height s - (gapY + Config.gapSize c))%float 60 false in
  set_lastWallX (set_walls s (walls s ++ [wall])) (width s).

(** The test that guards [generateWall] in [update]. *)
Definition wallDue (c : Config.t) (s : t) : bool :=
  match walls s with
  | [] => true
  | w :: ws =>
      Config.wallSpacing c <=? lastWallX s - Wall.x (last ws w)
  end.

(** The [filter] callback of [update], run over the walls in order.  The
    result is the walls that stay, the walls that are dropped (with the
    flag the callback leaves on them), the score and the telemetry. *)
Fixpoint filterWalls (ws : list Wall.t) (sc : Z)
  : list Wall.t * list Wall.t * Z * list Effect :=
  match ws with
  | [] => ([], [], sc, [])
  | w :: rest =>
      if Wall.x w + Wall.width w <? 0 then
        if negb (Wall.scored w) then
          let '(kept, gone, sc', o) := filterWalls rest (sc + 1) in
          (kept, Wall.set_scored w true :: gone, sc',
           Log "debug" "Score increased" [("score", JInt (sc + 1))] :: o)
        else
          let '(kept, gone, sc', o) := filterWalls rest sc in
          (kept, w :: gone, sc', o)
      else
        let '(kept, gone, sc', o) := filterWalls rest sc in
        (w :: kept, gone, sc', o)
  end.

(** [endGame]. *)
Definition endGame (collisionType : string) (s : t) : t * list Effect :=
  (set_gameRunning (set_gameOver s true) false,
   [Log "info" "Collision detected"
        [("obstacleType", JStr collisionType); ("score", JInt (score s))];
    DispatchEvent "gameOver"
        [("score", JInt (score s)); ("difficulty", difficulty_val s)]]).

Definition hitsBoundary (g : Ghosty.t) (h : float) : bool :=
  (Ghosty.y g <=? 0)%float || (h <=? Ghosty.y g + Ghosty.height g)%float.

Definition overlapsWall (g : Ghosty.t) (w : Wall.t) : bool :=
  (Ghosty.x g <? Wall.x w + Wall.width w)
  && (Wall.x w <? Ghosty.x g + Ghosty.width g).

Definition outsideGap (g : Ghosty.t) (w : Wall.t) : bool :=
  (Ghosty.y g <? Wall.topHeight w)%float
  || (Wall.bottomY w <? Ghosty.y g + Ghosty.height g)%float.

(** The [for] loop of [checkCollisions]: whether it reaches [endGame]. *)
Fixpoint hitsWall (g : Ghosty.t) (ws : list Wall.t) : bool :=
  match ws with
  | [] => false
  | w :: rest =>
      if overlapsWall g w then
        if outsideGap g w then true else hitsWall g rest
      else hitsWall g rest
  end.

(** [checkCollisions]. *)
Definition checkCollisions (s : t) : t * list Effect :=
  if hitsBoundary (ghosty s) (height s) then endGame "boundary" s
  else if hitsWall (ghosty s) (walls s) then endGame "wall" s
  else (s, []).

(** The four parts of [update] that follow the guard. *)
Definition physics (c : Config.t) (s : t) : t :=
  let g := ghosty s in
  let v := (Ghosty.velocity g + Config.gravity c)%float in
  set_ghosty s (Ghosty.mk (Ghosty.x g) (Ghosty.y g + v)%float
                          (Ghosty.width g) (Ghosty.height g) v).

Definition generate (c : Config.t) (rnd : float) (s : t) : t :=
  if wallDue c s then generateWall c rnd s else s.

Definition scroll (c : Config.t) (s : t) : t :=
  set_walls s
    (map (fun w => Wall.set_x w (Wall.x w - Config.wallSpeed c)) (walls s)).

Definition retire (s : t) : t * list Effect :=
  let '(kept, _, sc, o) := filterWalls (walls s) (score s) in
  (set_score (set_walls s kept) sc, o).

(** What [update] does once it is past its guard and has its profile. *)
Definition advance (c : Config.t) (rnd : float) (s : t) : t * list Effect :=
  let (s1, o1) := retire (scroll c (generate c rnd (physics c s))) in
  let (s2, o2) := checkCollisions s1 in
  (s2, o1 ++ o2).

(** [update]. *)
Definition update (s : t) (rnd : float) : Completion t :=
  if negb (gameRunning s) || gameOver s then Normal s []
  else
    match config s with
    | None => Throw (TypeError "gravity") s []
    | Some c => let (s', o) := advance c rnd s in Normal s' o
    end.

(** [gameLoop]. *)
Definition gameLoop (s : t) (rnd : float) : Completion t :=
  if gameRunning s then
    match update s rnd with
    | Normal s' o => Normal s' (o ++ [Render; RequestAnimationFrame])
    | Throw e s' o => Throw e s' o
    end
  else Normal s [].

(** The part of [start] before it enters the loop. *)
Definition start_prefix (s : t) : t * list Effect :=
  (set_gameOver (set_gameRunning (reset s) true) false,
   [AddKeydownListener;
    Log "info" "Game started" [("difficulty", difficulty_val s)]]).

(** [start]. *)
Definition start (s : t) (rnd : float) : Completion t :=
  let (s1, o1) := start_prefix s in
  match gameLoop s1 rnd with
  | Normal s' o => Normal s' (o1 ++ o)
  | Throw e s' o => Throw e s' (o1 ++ o)
  end.

Definition getScore (s : t) : Z := score s.
Definition getDifficulty (s : t) : option string := difficulty s.

(** The calls the controller and the browser make on an engine. *)
Inductive Call : Type :=
| SetDifficulty (d : string)
| Start (rnd : float)
| Stop
| KeyPress (code : string)
| Update (rnd : float)
| Frame (rnd : float).

Definition call (c : Call) (s : t) : Completion t :=
  match c with
  | SetDifficulty d => let (s', o) := setDifficulty s d in Normal s' o
  | Start rnd => start s rnd
  | Stop => let (s', o) := stop s in Normal s' o
  | KeyPress code => handleKeyPress s code
  | Update rnd => update s rnd
  | Frame rnd => gameLoop s rnd
  end.

Fixpoint run (cs : list Call) (s : t) : t :=
  match cs with
  | [] => s
  | c :: cs' => run cs' (state_of (call c s))
  end.

(** The states an engine built on [canvas] can be in. *)
Inductive reachable (canvas : Canvas) : t -> Prop :=
| reach_new : reachable canvas (constructor canvas)
| reach_call c s :
    reachable canvas s -> reachable canvas (state_of (call c s)).

End Game.

(** ** The username gate *)

Module Username.

Definition code (c : ascii) : N := N_of_ascii c.

Definition between (lo hi : ascii) (c : ascii) : bool :=
  ((code lo <=? code c) && (code c <=? code hi))%N.

(** The class [[a-zA-Z0-9_-]]. *)
Definition inClass (c : ascii) : bool :=
  between "a" "z" c || between "A" "Z" c || between "0" "9" c
  || Ascii.eqb c "_" || Ascii.eqb c "-".

(** The quantifier [{1,20}] is greedy: it takes characters of the class
    while it may, at most [fuel] of them, and hands back what is left. *)
Fixpoint takeClass (fuel : nat) (s : string) : nat * string :=
  match fuel, s with
  | S fuel', String c s' =>
      if inClass c then
        let (n, rest) := takeClass fuel' s' in (S n, rest)
      else (O, s)
  | _, _ => (O, s)
  end.

(** [/^[a-zA-Z0-9_-]{1,20}$/.test(username)]: after the greedy run the
    end of the input must have been reached; giving characters back
    cannot help, the run is followed by [$] alone. *)
Definition patternTest (username : string) : bool :=
  let (n, rest) := takeClass 20 username in
  (1 <=? n)%nat && String.eqb rest "".

Definition lowerChar (c : ascii) : ascii :=
  if between "A" "Z" c then ascii_of_N (code c + 32) else c.

(** [toLowerCase] on the characters the gate lets through: its result
    decides the verdict only when the pattern has matched, that is on
    letters, digits, [_] and [-].  A character is a byte here; a code unit
    beyond that range is outside the class like any other. *)
Fixpoint toLowerCase (s : string) : string :=
  match s with
  | EmptyString => EmptyString
  | String c s' => String (lowerChar c) (toLowerCase s')
  end.

(** [String.prototype.includes]. *)
Fixpoint includes (s sub : string) : bool :=
  String.prefix sub s
  || match s with
     | EmptyString => false
     | String _ s' => includes s' sub
     end.

Definition inappropriateWords : list string :=
  ["admin"; "root"; "test"; "null"; "undefined"].

(** [containsInappropriateContent]. *)
Definition containsInappropriateContent (username : string) : bool :=
  existsb (fun word => includes (toLowerCase username) (toLowerCase word))
          inappropriateWords.

(** The value [validateUsername] computes and returns. *)
Definition isValid (username : string) : bool :=
  patternTest username && negb (containsInappropriateContent username).

(** *** The gate as the design document words it *)

Definition InClass (c : ascii) : Prop :=
  (code "A" <= code c <= code "Z")%N \/ (code "a" <= code c <= code "z")%N
  \/ (code "0" <= code c <= code "9")%N \/ c = "_"%char \/ c = "-"%char.

Fixpoint AllInClass (s : string) : Prop :=
  match s with
  | EmptyString => True
  | String c s' => InClass c /\ AllInClass s'
  end.

(** [s] matches [^[A-Za-z0-9_-]{1,20}$]. *)
Definition MatchesPattern (s : string) : Prop :=
  (1 <= String.length s <= 20)%nat /\ AllInClass s.

(** Two strings that differ at most in the case of their letters. *)
Fixpoint SameIgnoringCase (u v : string) : Prop :=
  match u, v with
  | EmptyString, EmptyString => True
  | String a u', String b v' => lowerChar a = lowerChar b /\ SameIgnoringCase u' v'
  | _, _ => False
  end.

(** [word] occurs in [s] as a substring, case ignored. *)
Definition ContainsIgnoringCase (s word : string) : Prop :=
  exists pre mid post,
    s = (pre ++ mid ++ post)%string /\ SameIgnoringCase mid word.

Definition Accepted (s : string) : Prop :=
  MatchesPattern s /\
  forall word, In word inappropriateWords -> ~ ContainsIgnoringCase s word.

End Username.

(** ** The controller, [FlappyKiroApp] *)

Module App.

(** The keys of [this.screens]. *)
Inductive Screen : Type := menu | game | gameOver | leaderboard.

Definition screenName (sc : Screen) : string :=
  match sc with
  | menu => "menu" | game => "game"
  | gameOver => "gameOver" | leaderboard => "leaderboard"
  end.

(** The controller's own fields, the page elements it writes to, and the
    score requests it has sent and not yet heard back from. *)
Record t : Type := mk {
  currentScreen : Screen;
  selectedDifficulty : string;
  engine : option Game.t;            (* this.game *)
  canvas : Canvas;
  username : string;                 (* #username .value *)
  borderColor : string;              (* #username .style.borderColor *)
  submitDisabled : bool;             (* #submit-score .disabled *)
  finalScore : option JsVal;         (* #final-score *)
  pending : list JsObj
}.

Definition set_screen (a : t) (sc : Screen) : t :=
  mk sc (selectedDifficulty a) (engine a) (canvas a) (username a)
     (borderColor a) (submitDisabled a) (finalScore a) (pending a).
Definition set_selectedDifficulty (a : t) (d : string) : t :=
  mk (currentScreen a) d (engine a) (canvas a) (username a)
     (borderColor a) (submitDisabled a) (finalScore a) (pending a).
Definition set_engine (a : t) (g : option Game.t) : t :=
  mk (currentScreen a) (selectedDifficulty a) g (canvas a) (username a)
     (borderColor a) (submitDisabled a) (finalScore a) (pending a).
Definition set_username (a : t) (u : string) : t :=
  mk (currentScreen a) (selectedDifficulty a) (engine a) (canvas a) u
     (borderColor a) (submitDisabled a) (finalScore a) (pending a).
Definition set_validation (a : t) (color : string) (disabled : bool) : t :=
  mk (currentScreen a) (selectedDifficulty a) (engine a) (canvas a)
     (username a) color disabled (finalScore a) (pending a).
Definition set_finalScore (a : t) (v : option JsVal) : t :=
  mk (currentScreen a) (selectedDifficulty a) (engine a) (canvas a)
     (username a) (borderColor a) (submitDisabled a) v (pending a).
Definition set_pending (a : t) (p : list JsObj) : t :=
  mk (currentScreen a) (selectedDifficulty a) (engine a) (canvas a)
     (username a) (borderColor a) (submitDisabled a) (finalScore a) p.

(** [showScreen]. *)
Definition showScreen (a : t) (sc : Screen) : t * list Effect :=
  (set_screen a sc,
   [Log "debug" "Screen changed" [("screen", JStr (screenName sc))]]).

(** [constructor], on a page with the given canvas and the given initial
    state of the submit button. *)
Definition constructor (cv : Canvas) (disabled : bool) : t * list Effect :=
  let (a, o) := showScreen (mk menu "medium" None cv "" "" disabled None []) menu in
  (a, o ++ [Log "info" "App initialized" []]).

(** [selectDifficulty]. *)
Definition selectDifficulty (a : t) (d : string) : t * list Effect :=
  (set_selectedDifficulty a d,
   [Log "info" "Difficulty selected" [("difficulty", JStr d)]]).

(** [handleGameOver]. *)
Definition handleGameOver (a : t) (gameData : JsObj) : t * list Effect :=
  showScreen (set_finalScore a (field "score" gameData)) gameOver.

(** [document.dispatchEvent] runs the listeners before it returns: the
    controller's [gameOver] listener runs in the middle of the engine's
    effects. *)
Fixpoint deliver (a : t) (out : list Effect) : t * list Effect :=
  match out with
  | [] => (a, [])
  | e :: out' =>
      let (a1, o1) :=
        match e with
        | DispatchEvent type detail =>
            if String.eqb type "gameOver" then handleGameOver a detail
            else (a, [])
        | _ => (a, [])
        end in
      let (a2, o2) := deliver a1 out' in
      (a2, e :: o1 ++ o2)
  end.

(** An engine call made on [this.game], with its events delivered. *)
Definition onEngine (a : t) (r : Completion Game.t) : Completion t :=
  match r with
  | Normal g o =>
      let (a', o') := deliver (set_engine a (Some g)) o in Normal a' o'
  | Throw e g o =>
      let (a', o') := deliver (set_engine a (Some g)) o in Throw e a' o'
  end.

(** [startGame].  [startUIUpdates] finds the new engine not yet running
    and schedules nothing. *)
Definition startGame (a : t) (rnd : float) : Completion t :=
  let (a1, o1) := showScreen a game in
  let (g1, o2) :=
    Game.setDifficulty (Game.constructor (canvas a1)) (selectedDifficulty a1) in
  match onEngine a1 (Game.start g1 rnd) with
  | Normal a2 o3 => Normal a2 (o1 ++ o2 ++ o3)
  | Throw e a2 o3 => Throw e a2 (o1 ++ o2 ++ o3)
  end.

(** [validateUsername], on the username field. *)
Definition validateUsername (a : t) : t * bool :=
  let isValid := Username.isValid (username a) in
  (set_validation a (if isValid then "#4CAF50" else "#f44336") (negb isValid),
   isValid).

(** [submitScore] up to its [await]; [timestamp] is what
    [new Date().toISOString()] returns. *)
Definition submitScore (a : t) (timestamp : string) : Completion t :=
  let username := username a in
  let (a1, valid) := validateUsername a in
  if negb valid then
    Normal a1 [Alert "Please enter a valid username (alphanumeric, underscore, hyphen only, 1-20 characters)"]
  else
    match engine a1 with
    | None => Throw (TypeError "getScore") a1 []
    | Some g =>
        let scoreData :=
          [("username", JStr username);
           ("score", JInt (Game.getScore g));
           ("difficulty", Game.difficulty_val g);
           ("timestamp", JStr timestamp)] in
        Normal (set_pending a1 (pending a1 ++ [scoreData]))
               [Fetch "POST" "/api/scores" scoreData]
    end.

(** How a request ends. *)
Inductive Response : Type :=
| Ok
| NotOk (message : string)
| Failed (message : string).

Definition getField (k : string) (o : JsObj) : JsVal :=
  match field k o with Some v => v | None => JUndefined end.

Fixpoint removeNth {A} (i : nat) (l : list A) : list A :=
  match i, l with
  | _, [] => []
  | O, _ :: l' => l'
  | S i', x :: l' => x :: removeNth i' l'
  end.

(** [submitScore] from its [await] on, for the [i]-th pending request. *)
Definition submitSettled (a : t) (i : nat) (r : Response) : t * list Effect :=
  match nth_error (pending a) i with
  | None => (a, [])
  | Some scoreData =>
      let a' := set_pending a (removeNth i (pending a)) in
      match r with
      | Ok =>
          (set_username a' "",
           [Log "info" "Score submitted"
                [("username", getField "username" scoreData);
                 ("score", getField "score" scoreData);
                 ("difficulty", getField "difficulty" scoreData)];
            Alert "Score submitted successfully!"])
      | NotOk message =>
          (a', [Alert ("Failed to submit score: " ++ message);
                Log "error" "Score submission failed"
                    [("error", JStr message)]])
      | Failed message =>
          (a', [Alert "Failed to submit score. Please try again.";
                Log "error" "Score submission error"
                    [("error", JStr message)]])
      end
  end.

(** [showLeaderboard] up to its [await]. *)
Definition showLeaderboard (a : t) : t * list Effect :=
  let (a1, o1) := showScreen a leaderboard in
  (a1, o1 ++ [Fetch "GET" "/api/leaderboard" []]).

(** What the page and the browser can do to the controller: the listeners
    of [setupEventListeners], the key listener and frame callback of the
    engine in [this.game], and the arrival of a response.  An engine that
    [startGame] replaces while it is still running keeps a loop and a
    listener of its own, which [handle] does not follow; what is said of
    frames is said of sessions in which a game is started only when none
    is running ([Orderly.orderly]). *)
Inductive Trigger : Type :=
| ClickDifficulty (d : string)
| ClickStartGame (rnd : float)
| ClickShowLeaderboard
| ClickSubmitScore (timestamp : string)
| ClickPlayAgain (rnd : float)
| ClickBackToMenu
| ClickBackFromLeaderboard
| InputUsername (value : string)
| Keydown (code : string)
| AnimationFrame (rnd : float)
| SubmitResponse (i : nat) (r : Response).

Definition handle (tr : Trigger) (a : t) : Completion t :=
  match tr with
  | ClickDifficulty d => let (a', o) := selectDifficulty a d in Normal a' o
  | ClickStartGame rnd => startGame a rnd
  | ClickShowLeaderboard => let (a', o) := showLeaderboard a in Normal a' o
  | ClickSubmitScore timestamp => submitScore a timestamp
  | ClickPlayAgain rnd => startGame a rnd
  | ClickBackToMenu => let (a', o) := showScreen a menu in Normal a' o
  | ClickBackFromLeaderboard => let (a', o) := showScreen a menu in Normal a' o
  | InputUsername value =>
      Normal (fst (validateUsername (set_username a value))) []
  | Keydown code =>
      match engine a with
      | Some g => onEngine a (Game.handleKeyPress g code)
      | None => Normal a []
      end
  | AnimationFrame rnd =>
      match engine a with
      | Some g => onEngine a (Game.gameLoop g rnd)
      | None => Normal a []
      end
  | SubmitResponse i r => let (a', o) := submitSettled a i r in Normal a' o
  end.

Fixpoint run (trs : list Trigger) (a : t) : t :=
  match trs with
  | [] => a
  | tr :: trs' => run trs' (state_of (handle tr a))
  end.

(** Whether an effect is a score request going out. *)
Definition isScoreRequest (e : Effect) : bool :=
  match e with
  | Fetch method url _ => String.eqb method "POST" && String.eqb url "/api/scores"
  | _ => false
  end.

(** Whether an effect is the telemetry record that [stop] alone writes. *)
Definition isGameEnded (e : Effect) : bool :=
  match e with
  | Log _ message _ => String.eqb message "Game ended"
  | _ => false
  end.

End App.

(** ** What holds of every state an engine can reach *)

Module GameInv.
Import Game.

(** A wall whose trailing edge is left of the playfield. *)
Definition retired (w : Wall.t) : bool := Wall.x w + Wall.width w <? 0.

Definition unscored (w : Wall.t) : Prop := Wall.scored w = false.

(** The profiles of the table. *)
Definition tableConfig (c : Config.t) : Prop :=
  c = easy \/ c = medium \/ c = hard.

(** Walls are born a full spacing apart; 250 is the least spacing of the
    table. *)
Definition spaced (a b : Wall.t) : Prop := Wall.x a + 250 <= Wall.x b.

Record Inv (s : t) : Prop := {
  inv_config : forall c, config s = Some c -> tableConfig c;
  inv_unscored : Forall unscored (walls s);
  inv_width : Forall (fun w => Wall.width w = 60) (walls s);
  inv_onscreen : Forall (fun w => 0 <= Wall.x w + Wall.width w) (walls s);
  inv_spaced : StronglySorted spaced (walls s);
  inv_lastWallX : lastWallX s = width s;
  inv_score : 0 <= score s
}.

(** The walls [update] hands to its [filter], and the ones it drops. *)
Definition scrolledWalls (c : Config.t) (rnd : float) (s : t) : list Wall.t :=
  walls (scroll c (generate c rnd (physics c s))).

Definition droppedWalls (c : Config.t) (rnd : float) (s : t) : list Wall.t :=
  snd (fst (fst (filterWalls (scrolledWalls c rnd s) (score s)))).


Definition isScoreRecord (e : Effect) : bool :=
  match e with
  | Log _ message _ => String.eqb message "Score increased"
  | _ => false
  end.



End GameInv.

(** ** Runs used as examples *)

Module Examples.
Import Game.

Definition canvas800x600 : Canvas :=
  {| canvas_width := 800; canvas_height := 600 |}.

(** A fresh engine with the easy profile bound. *)
Definition configured : Game.t :=
  fst (setDifficulty (constructor canvas800x600) "easy").

(** The same engine at the point where [start] enters its loop: actor at
    y = 300, at rest, running. *)
Definition atRest : Game.t := fst (start_prefix configured).

(** A run in which the player presses the space bar every 40th frame. *)
Definition hop : list Call :=
  KeyPress "Space" :: repeat (Update 0.5%float) 39.

Definition started : Game.t := state_of (start configured 0.5%float).

(** After 11 hops the first wall stands at x = -60, about to leave. *)
Definition firstWallLeaving : Game.t :=
  run (List.concat (repeat hop 11)) started.

(** A run in which the player never presses a key: after 40 further frames
    the actor is one frame above the floor. *)
Definition falling : Game.t :=
  run (repeat (Update 0.5%float) 40) started.

(** An engine started with no difficulty bound. *)
Definition unconfigured : Game.t :=
  state_of (start (constructor canvas800x600) 0.5%float).

(** A session: a game played to its end without a key press, a username
    typed, the score submitted once and no response yet. *)
Definition session : App.t :=
  App.run (App.ClickStartGame 0.5%float
           :: repeat (App.AnimationFrame 0.5%float) 42
           ++ [App.InputUsername "Player_1";
               App.ClickSubmitScore "2025-01-01T00:00:00.000Z"])
          (fst (App.constructor canvas800x600 false)).

(** A session on the game screen, three frames into a run. *)
Definition playing : App.t :=
  App.run (App.ClickStartGame 0.5%float
           :: repeat (App.AnimationFrame 0.5%float) 3)
          (fst (App.constructor canvas800x600 false)).

End Examples.

(** ** Names the table does not own *)

Module Plain.
Import Game.

(** The properties an object literal inherits from [Object.prototype]. *)
Definition inheritedNames : list string :=
  ["constructor"; "__proto__"; "hasOwnProperty"; "isPrototypeOf";
   "propertyIsEnumerable"; "toLocaleString"; "toString"; "valueOf";
   "__defineGetter__"; "__defineSetter__"; "__lookupGetter__";
   "__lookupSetter__"].

Definition inherited (name : string) : bool :=
  existsb (String.eqb name) inheritedNames.

(** [this.difficulties[name]]: a profile of the table, a value inherited
    from [Object.prototype], or [undefined]. *)
Inductive Lookup : Type :=
| Profile (c : Config.t)
| InheritedValue
| Undefined.

Definition lookup (name : string) : Lookup :=
  match difficulties name with
  | Some c => Profile c
  | None => if inherited name then InheritedValue else Undefined
  end.

(** A call that passes no inherited name to [setDifficulty]. *)
Definition plainCall (c : Call) : bool :=
  match c with
  | SetDifficulty d => negb (inherited d)
  | _ => true
  end.

(** The states an engine built on [canvas] reaches by such calls. *)
Inductive reachable (canvas : Canvas) : t -> Prop :=
| reach_new : reachable canvas (constructor canvas)
| reach_call c s :
    plainCall c = true -> reachable canvas s ->
    reachable canvas (state_of (call c s)).

End Plain.

(** ** The username gate, in the words of the design document *)

Module UsernameSpec.
Import Username.

(** The same character, or the upper-case and the lower-case form of one
    letter: the lower-case letters stand 32 places after the upper-case
    ones. *)
Definition SameLetter (a b : ascii) : Prop :=
  a = b
  \/ ((code "A" <= code a <= code "Z")%N /\ code b = (code a + 32)%N)
  \/ ((code "A" <= code b <= code "Z")%N /\ code a = (code b + 32)%N).

Fixpoint SameWord (u v : string) : Prop :=
  match u, v with
  | EmptyString, EmptyString => True
  | String a u', String b v' => SameLetter a b /\ SameWord u' v'
  | _, _ => False
  end.

(** [word] occurs in [s], case-insensitively, as a substring. *)
Definition Contains (s word : string) : Prop :=
  exists pre mid post, s = (pre ++ mid ++ post)%string /\ SameWord mid word.

(** [s] matches [^[A-Za-z0-9_-]{1,20}$] and contains no denylisted word. *)
Definition Permitted (s : string) : Prop :=
  MatchesPattern s
  /\ forall word, In word inappropriateWords -> ~ Contains s word.

End UsernameSpec.

(** ** Sessions in which one game runs at a time *)

Module Orderly.
Import App.

(** A game is started only when the controller holds no running engine,
    and the difficulty buttons carry no inherited name. *)
Definition allowed (tr : Trigger) (a : t) : bool :=
  match tr with
  | ClickStartGame _ | ClickPlayAgain _ =>
      match engine a with
      | Some g => negb (Game.gameRunning g)
      | None => true
      end
  | ClickDifficulty d => negb (Plain.inherited d)
  | _ => true
  end.

Fixpoint orderly (trs : list Trigger) (a : t) : bool :=
  match trs with
  | [] => true
  | tr :: trs' => allowed tr a && orderly trs' (state_of (handle tr a))
  end.

End Orderly.

(** ** Sequences of calls and what they write *)

Module Trace.
Import Game.

(** The effects of a sequence of calls, in the order they are written. *)
Fixpoint effects (cs : list Call) (s : t) : list Effect :=
  match cs with
  | [] => []
  | c :: cs' => effects_of (call c s) ++ effects cs' (state_of (call c s))
  end.

Definition isStart (c : Call) : bool :=
  match c with Start _ => true | _ => false end.

(** The calls that run [update]: a direct call and a frame of the loop. *)
Definition isTick (c : Call) : bool :=
  match c with Update _ | Frame _ => true | _ => false end.

(** What the browser does to a started engine: frames and keys. *)
Definition isInput (c : Call) : bool :=
  match c with Update _ | Frame _ | KeyPress _ => true | _ => false end.

Definition isFrameRequest (e : Effect) : bool :=
  match e with RequestAnimationFrame => true | _ => false end.

(** The details of the [gameOver] events among some effects. *)
Fixpoint gameOverDetails (o : list Effect) : list JsObj :=
  match o with
  | [] => []
  | DispatchEvent type detail :: o' =>
      if String.eqb type "gameOver" then detail :: gameOverDetails o'
      else gameOverDetails o'
  | _ :: o' => gameOverDetails o'
  end.

(** The detail [endGame] puts in its event. *)
Definition gameOverDetail (s : t) : JsObj :=
  [("score", JInt (score s)); ("difficulty", difficulty_val s)].

End Trace.

(** ** The geometry an engine keeps *)

Module Layout.
Import Game.

Record Layout (cv : Canvas) (s : t) : Prop := {
  lay_width : width s = canvas_width cv;
  lay_height : height s = Z2float (canvas_height cv);
  lay_ghost_x : Ghosty.x (ghosty s) = 100;
  lay_ghost_width : Ghosty.width (ghosty s) = 40;
  lay_ghost_height : Ghosty.height (ghosty s) = 40%float;
  lay_right : Forall (fun w => Wall.x w <= width s) (walls s);
  lay_flags : gameOver s = true -> gameRunning s = false;
  lay_config :
    config s = match difficulty s with
               | Some d => difficulties d
               | None => None
               end
}.

End Layout.

(** ** The score display *)

Module Ui.
Import App.

(** What [updateUI], the closure of [startUIUpdates], does when it runs. *)
Inductive Write : Type :=
| ScoreText (score : Z)          (* updateScore: "Score: " and the number *)
| NextFrame.                     (* requestAnimationFrame(updateUI) *)

Definition updateUI (a : t) : list Write :=
  match engine a with
  | Some g =>
      if Game.gameRunning g then [ScoreText (Game.getScore g); NextFrame]
      else []
  | None => []
  end.

(** The writes to the score display that [startGame] makes, in order:
    [updateScore(0)], then [startUIUpdates()], which calls [updateUI] once
    on the engine just built and configured and not yet started. *)
Definition startGameWrites (a : t) : list Write :=
  let g := fst (Game.setDifficulty (Game.constructor (canvas a))
                                   (selectedDifficulty a)) in
  ScoreText 0 :: updateUI (set_engine (set_screen a game) (Some g)).

(** What every session keeps. *)
Definition Coherent (a : t) : Prop :=
  (forall g, engine a = Some g -> Game.reachable (canvas a) g)
  /\ (currentScreen a = game ->
      exists g, engine a = Some g /\ Game.gameRunning g = true
                /\ Game.gameOver g = false)
  /\ (currentScreen a = gameOver ->
      exists g, engine a = Some g /\ Game.gameOver g = true
                /\ finalScore a = Some (JInt (Game.score g))).

End Ui.

(** ** The telemetry object, [Telemetry] *)

Module Telemetry.

(** What the page tells a record: the time, the browser and the address. *)
Record Env : Type := {
  now : string;            (* new Date().toISOString() *)
  agent : string;          (* navigator.userAgent *)
  href : string            (* window.location.href *)
}.

Record LogEntry : Type := {
  timestamp : string;
  service : string;
  level : string;
  message : string;
  data : JsObj;
  userAgent : string;
  url : string
}.

(** A value as [JSON.stringify] writes it. *)
Inductive Json : Type :=
| JsonInt (z : Z)
| JsonNum (f : float)
| JsonStr (s : string)
| JsonNull.

(** [JSON.stringify] on a number: NaN and the infinities are written
    [null], and minus zero is written as zero. *)
Definition stringifyNumber (f : float) : Json :=
  if is_nan f || is_infinity f then JsonNull
  else if (f =? 0)%float then JsonNum 0
  else JsonNum f.

(** [JSON.stringify] on the fields of an object: a field that holds
    [undefined] is left out. *)
Fixpoint stringifyFields (o : JsObj) : list (string * Json) :=
  match o with
  | [] => []
  | (k, JUndefined) :: o' => stringifyFields o'
  | (k, JInt z) :: o' => (k, JsonInt z) :: stringifyFields o'
  | (k, JNum f) :: o' => (k, stringifyNumber f) :: stringifyFields o'
  | (k, JStr s) :: o' => (k, JsonStr s) :: stringifyFields o'
  end.

(** The value the text [JSON.stringify(logEntry)] denotes. *)
Record Body : Type := {
  body_timestamp : string;
  body_service : string;
  body_level : string;
  body_message : string;
  body_data : list (string * Json);
  body_userAgent : string;
  body_url : string
}.

Definition stringify (e : LogEntry) : Body :=
  {| body_timestamp := timestamp e; body_service := service e;
     body_level := level e; body_message := message e;
     body_data := stringifyFields (data e);
     body_userAgent := userAgent e; body_url := url e |}.

Inductive Out : Type :=
| ConsoleLog (line : string) (data : JsObj)
| Post (address : string) (body : Body)
| ConsoleError (text : string).

Record t : Type := { serviceName : string; logs : list LogEntry }.

Definition constructor : t :=
  {| serviceName := "flappy-kiro-frontend"; logs := [] |}.

Definition upperChar (c : ascii) : ascii :=
  if Username.between "a" "z" c then ascii_of_N (Username.code c - 32) else c.

(** [toUpperCase] on a level name. *)
Fixpoint toUpperCase (s : string) : string :=
  match s with
  | EmptyString => EmptyString
  | String c s' => String (upperChar c) (toUpperCase s')
  end.

(** [log]; a missing [data] is the empty object.  [sendLog] posts the
    record as JSON. *)
Definition log (tm : t) (env : Env) (level message : string)
               (data : option JsObj) : t * list Out :=
  let d := match data with Some o => o | None => [] end in
  let logEntry :=
    {| timestamp := now env; service := serviceName tm; level := level;
       message := message; data := d; userAgent := agent env;
       url := href env |} in
  ({| serviceName := serviceName tm; logs := logs tm ++ [logEntry] |},
   [ConsoleLog ("[" ++ toUpperCase level ++ "] " ++ message) d;
    Post "http://localhost:8000/logs" (stringify logEntry)]).

(** [sendLog] after its [await]: a failed request is caught and reported
    to the console. *)
Definition sendLogSettled (ok : bool) : list Out :=
  if ok then [] else [ConsoleError "Failed to send log to backend:"].

Inductive Method : Type :=
| Raw (level message : string) (data : option JsObj)
| Info (message : string) (data : option JsObj)
| Warn (message : string) (data : option JsObj)
| Error (message : string) (data : option JsObj)
| Debug (message : string) (data : option JsObj)
| GameStart (difficulty : JsVal)
| GameEnd (score difficulty : JsVal)
| ScoreSubmitted (username score difficulty : JsVal)
| Collision (obstacleType score : JsVal).

Definition invoke (tm : t) (env : Env) (m : Method) : t * list Out :=
  match m with
  | Raw level message data => log tm env level message data
  | Info message data => log tm env "info" message data
  | Warn message data => log tm env "warn" message data
  | Error message data => log tm env "error" message data
  | Debug message data => log tm env "debug" message data
  | GameStart difficulty =>
      log tm env "info" "Game started" (Some [("difficulty", difficulty)])
  | GameEnd score difficulty =>
      log tm env "info" "Game ended"
          (Some [("score", score); ("difficulty", difficulty)])
  | ScoreSubmitted username score difficulty =>
      log tm env "info" "Score submitted"
          (Some [("username", username); ("score", score);
                 ("difficulty", difficulty)])
  | Collision obstacleType score =>
      log tm env "info" "Collision detected"
          (Some [("obstacleType", obstacleType); ("score", score)])
  end.

Fixpoint run (ms : list (Env * Method)) (tm : t) : t * list Out :=
  match ms with
  | [] => (tm, [])
  | (env, m) :: ms' =>
      let (tm1, o1) := invoke tm env m in
      let (tm2, o2) := run ms' tm1 in
      (tm2, o1 ++ o2)
  end.

Definition levelOf (m : Method) : string :=
  match m with
  | Raw level _ _ => level
  | Warn _ _ => "warn"
  | Error _ _ => "error"
  | Debug _ _ => "debug"
  | _ => "info"
  end.

Fixpoint posts (o : list Out) : list Body :=
  match o with
  | [] => []
  | Post _ body :: o' => body :: posts o'
  | _ :: o' => posts o'
  end.

End Telemetry.

(** ** Sessions used as examples *)

Module Sessions.

Definition fresh : App.t := fst (App.constructor Examples.canvas800x600 false).

(** A game on the default difficulty in which no key is pressed: 34 frames
    in, the actor is one frame above the floor. *)
Definition lastFrame : App.t :=
  App.run (App.ClickStartGame 0.5%float
           :: repeat (App.AnimationFrame 0.5%float) 34) fresh.

(** The same game played to its end, a username typed and the score sent. *)
Definition submitted : list App.Trigger :=
  App.ClickStartGame 0.5%float
  :: repeat (App.AnimationFrame 0.5%float) 42
  ++ [App.InputUsername "Player_1";
      App.ClickSubmitScore "2025-01-01T00:00:00.000Z"].

End Sessions.

(** ** Properties of the engine *)

Module GameProps.
Import Game GameInv.

(** *** The [filter] of [update] *)

Lemma filterWalls_kept ws sc :
  fst (fst (fst (filterWalls ws sc))) = filter (fun w => negb (retired w)) ws.
Proof.
  revert sc; induction ws as [|w rest IH]; intros sc; [reflexivity|].
  cbn [filterWalls filter]. unfold retired at 1.
  destruct (Wall.x w + Wall.width w <? 0); cbn [negb].
  - destruct (Wall.scored w); cbn [negb].
    + specialize (IH sc). destruct (filterWalls rest sc) as [[[k g] s'] o]. exact IH.
    + specialize (IH (sc + 1)).
      destruct (filterWalls rest (sc + 1)) as [[[k g] s'] o]. exact IH.
  - specialize (IH sc). destruct (filterWalls rest sc) as [[[k g] s'] o].
    cbn in *. now f_equal.
Qed.

Lemma set_scored_same w : Wall.scored w = true -> Wall.set_scored w true = w.
Proof. destruct w; cbn; intros ->; reflexivity. Qed.

Lemma filterWalls_gone ws sc :
  snd (fst (fst (filterWalls ws sc)))
  = map (fun w => Wall.set_scored w true) (filter retired ws).
Proof.
  revert sc; induction ws as [|w rest IH]; intros sc; [reflexivity|].
  cbn [filterWalls filter]. unfold retired at 1.
  destruct (Wall.x w + Wall.width w <? 0).
  - destruct (Wall.scored w) eqn:Hs; cbn [negb].
    + specialize (IH sc). destruct (filterWalls rest sc) as [[[k g] s'] o].
      cbn in *. rewrite set_scored_same by exact Hs. now f_equal.
    + specialize (IH (sc + 1)).
      destruct (filterWalls rest (sc + 1)) as [[[k g] s'] o].
      cbn in *. now f_equal.
  - specialize (IH sc). destruct (filterWalls rest sc) as [[[k g] s'] o].
    exact IH.
Qed.

(** The score grows by one for each wall that is dropped and was not
    scored before. *)
Lemma filterWalls_score ws sc :
  snd (fst (filterWalls ws sc))
  = sc + Z.of_nat (List.length (filter (fun w => retired w && negb (Wall.scored w)) ws)).
Proof.
  revert sc; induction ws as [|w rest IH]; intros sc; [cbn; lia|].
  cbn [filterWalls filter]. unfold retired at 1.
  destruct (Wall.x w + Wall.width w <? 0); cbn [andb].
  - destruct (Wall.scored w); cbn [negb].
    + specialize (IH sc). destruct (filterWalls rest sc) as [[[k g] s'] o].
      exact IH.
    + specialize (IH (sc + 1)).
      destruct (filterWalls rest (sc + 1)) as [[[k g] s'] o].
      cbn [fst snd List.length] in *. lia.
  - specialize (IH sc). destruct (filterWalls rest sc) as [[[k g] s'] o].
    exact IH.
Qed.

(** One telemetry record per point, and nothing else. *)
Lemma filterWalls_log ws sc :
  Forall (fun e => isScoreRecord e = true) (snd (filterWalls ws sc))
  /\ Z.of_nat (List.length (snd (filterWalls ws sc)))
     = snd (fst (filterWalls ws sc)) - sc.
Proof.
  revert sc; induction ws as [|w rest IH]; intros sc; [cbn; split; [constructor | lia]|].
  cbn [filterWalls].
  destruct (Wall.x w + Wall.width w <? 0).
  - destruct (Wall.scored w); cbn [negb].
    + specialize (IH sc). destruct (filterWalls rest sc) as [[[k g] s'] o].
      exact IH.
    + specialize (IH (sc + 1)).
      destruct (filterWalls rest (sc + 1)) as [[[k g] s'] o].
      cbn [fst snd List.length] in *. destruct IH as [IH1 IH2]. split.
      * constructor; [reflexivity | exact IH1].
      * lia.
  - specialize (IH sc). destruct (filterWalls rest sc) as [[[k g] s'] o].
    exact IH.
Qed.

Lemma filter_unscored ws :
  Forall unscored ws ->
  filter (fun w => retired w && negb (Wall.scored w)) ws = filter retired ws.
Proof.
  induction 1 as [|w rest Hw _ IH]; [reflexivity|].
  cbn [filter]. rewrite Hw, IH. cbn. now rewrite andb_true_r.
Qed.

(** *** Spacing *)

Lemma StronglySorted_snoc {A} (R : A -> A -> Prop) l b :
  StronglySorted R l -> Forall (fun a => R a b) l ->
  StronglySorted R (l ++ [b]).
Proof.
  induction 1 as [|a l Hl IH Ha]; intros Hb; cbn.
  - repeat constructor.
  - inversion Hb; subst. constructor; [auto|].
    apply Forall_app; split; [exact Ha | repeat constructor; assumption].
Qed.

Lemma StronglySorted_filter {A} (R : A -> A -> Prop) f l :
  StronglySorted R l -> StronglySorted R (filter f l).
Proof.
  induction 1 as [|a l Hl IH Ha]; cbn; [constructor|].
  destruct (f a); [|exact IH].
  constructor; [exact IH|].
  apply Forall_forall. intros x Hx. apply filter_In in Hx.
  rewrite Forall_forall in Ha. apply Ha, Hx.
Qed.

Lemma last_cons {A} (rest : list A) v w : last (v :: rest) w = last rest v.
Proof.
  revert v w; induction rest as [|a rest IH]; intros v w; [reflexivity|].
  change (last (v :: a :: rest) w) with (last (a :: rest) w).
  now rewrite !IH.
Qed.

(** In a spaced list no wall is right of the last one. *)
Lemma spaced_below_last ws w :
  StronglySorted spaced (w :: ws) ->
  Forall (fun a => Wall.x a <= Wall.x (last ws w)) (w :: ws).
Proof.
  revert w; induction ws as [|v rest IH]; intros w Hs.
  - cbn. repeat constructor. lia.
  - inversion Hs as [|? ? Hrest Hall]; subst.
    specialize (IH v Hrest). rewrite last_cons.
    constructor; [|exact IH].
    inversion IH; subst. inversion Hall; subst. unfold spaced in *. lia.
Qed.

Lemma retired_after_head h tl :
  StronglySorted spaced (h :: tl) ->
  Forall (fun w => Wall.width w = 60) (h :: tl) ->
  -250 <= Wall.x h + 60 ->
  filter retired tl = [].
Proof.
  intros Hs Hw Hh. inversion Hs as [|? ? _ Hall]; subst.
  inversion Hw as [|? ? _ Hwtl]; subst. clear Hs Hw.
  induction tl as [|w tl IH]; [reflexivity|].
  inversion Hall; subst. inversion Hwtl; subst.
  cbn [filter]. unfold spaced in *. unfold retired at 1.
  destruct (Z.ltb_spec (Wall.x w + Wall.width w) 0); [lia | auto].
Qed.

Lemma retired_at_most_one ws :
  StronglySorted spaced ws ->
  Forall (fun w => Wall.width w = 60) ws ->
  match ws with [] => True | h :: _ => -250 <= Wall.x h + 60 end ->
  (List.length (filter retired ws) <= 1)%nat.
Proof.
  destruct ws as [|h tl]; intros Hs Hw Hh; [cbn; lia|].
  cbn [filter]. rewrite (retired_after_head h tl Hs Hw Hh).
  destruct (retired h); cbn; lia.
Qed.

(** *** The parts of [update], one by one *)

Lemma retire_spec s :
  fst (retire s)
  = set_score (set_walls s (filter (fun w => negb (retired w)) (walls s)))
      (score s + Z.of_nat (List.length
         (filter (fun w => retired w && negb (Wall.scored w)) (walls s)))).
Proof.
  unfold retire.
  pose proof (filterWalls_kept (walls s) (score s)) as Hk.
  pose proof (filterWalls_score (walls s) (score s)) as Hsc.
  destruct (filterWalls (walls s) (score s)) as [[[k g] sc] o].
  cbn in *. now subst.
Qed.

Lemma retire_log s : snd (retire s) = snd (filterWalls (walls s) (score s)).
Proof.
  unfold retire. now destruct (filterWalls (walls s) (score s)) as [[[k g] sc] o].
Qed.

Lemma checkCollisions_cases s :
  (checkCollisions s = (s, [])
   /\ hitsBoundary (ghosty s) (height s) = false
   /\ hitsWall (ghosty s) (walls s) = false)
  \/ (checkCollisions s = endGame "boundary" s
      /\ hitsBoundary (ghosty s) (height s) = true)
  \/ (checkCollisions s = endGame "wall" s
      /\ hitsBoundary (ghosty s) (height s) = false
      /\ hitsWall (ghosty s) (walls s) = true).
Proof.
  unfold checkCollisions.
  destruct (hitsBoundary (ghosty s) (height s)); [auto|].
  destruct (hitsWall (ghosty s) (walls s)); auto.
Qed.

(** [checkCollisions] touches the two flags and nothing else. *)
Lemma checkCollisions_frame s :
  let s' := fst (checkCollisions s) in
  walls s' = walls s /\ score s' = score s /\ config s' = config s
  /\ width s' = width s /\ lastWallX s' = lastWallX s
  /\ ghosty s' = ghosty s /\ height s' = height s
  /\ difficulty s' = difficulty s.
Proof.
  destruct (checkCollisions_cases s) as [[-> _]|[[-> _]|[-> _]]];
    cbn; repeat split.
Qed.


Lemma tableConfig_bounds c :
  tableConfig c ->
  0 < Config.wallSpeed c <= 4 /\ 250 <= Config.wallSpacing c.
Proof. intros [-> | [-> | ->]]; cbn; lia. Qed.

Lemma difficulties_table d c : difficulties d = Some c -> tableConfig c.
Proof.
  unfold difficulties, tableConfig.
  destruct (d =? "easy")%string; [intros [= <-]; auto|].
  destruct (d =? "medium")%string; [intros [= <-]; auto|].
  destruct (d =? "hard")%string; [intros [= <-]; auto | discriminate].
Qed.

(** The walls after generation and scroll: still unscored, 60 wide and
    spaced, and only the first of them can have left the playfield. *)
Lemma scrolledWalls_facts c rnd s :
  Inv s -> config s = Some c ->
  let ws := scrolledWalls c rnd s in
  Forall unscored ws /\ Forall (fun w => Wall.width w = 60) ws
  /\ StronglySorted spaced ws
  /\ (List.length (filter retired ws) <= 1)%nat.
Proof.
  intros HI Hc.
  destruct (tableConfig_bounds c (inv_config s HI c Hc)) as [Hsp Hgap].
  unfold scrolledWalls, scroll, generate.
  set (mv := fun w => Wall.set_x w (Wall.x w - Config.wallSpeed c)).
  assert (Hmv : forall l,
    Forall unscored l -> Forall (fun w => Wall.width w = 60) l ->
    StronglySorted spaced l ->
    Forall unscored (map mv l) /\ Forall (fun w => Wall.width w = 60) (map mv l)
    /\ StronglySorted spaced (map mv l)).
  { induction l as [|w l IHl]; intros H1 H2 H3; cbn.
    - repeat constructor.
    - inversion H1; inversion H2; inversion H3; subst.
      destruct IHl as (I1 & I2 & I3); auto.
      repeat split; constructor; auto.
      apply Forall_forall. intros v Hv. apply in_map_iff in Hv.
      destruct Hv as (u & <- & Hu).
      match goal with H : Forall (spaced w) l |- _ =>
        rewrite Forall_forall in H; specialize (H u Hu) end.
      unfold spaced, mv in *; cbn; lia. }
  destruct HI as [_ Hu Hw Hon Hs Hl _].
  destruct (wallDue c (physics c s)) eqn:Hdue; cbn [walls set_walls set_lastWallX generateWall physics set_ghosty].
  - unfold wallDue in Hdue. cbn [walls physics set_ghosty lastWallX] in Hdue.
    set (new := Wall.mk _ _ _ _ _ _).
    assert (Hnew : Forall (fun a => spaced a new) (walls s)).
    { destruct (walls s) as [|w ws] eqn:Hws; [constructor|].
      apply Z.leb_le in Hdue.
      pose proof (spaced_below_last ws w Hs) as Hb.
      eapply Forall_impl; [|exact Hb]. intros a Ha.
      unfold spaced, new; cbn in *. lia. }
    destruct (Hmv (walls s ++ [new])) as (M1 & M2 & M3).
    + apply Forall_app; split; [exact Hu | repeat constructor].
    + apply Forall_app; split; [exact Hw | repeat constructor].
    + apply StronglySorted_snoc; assumption.
    + repeat split; try assumption.
      destruct (walls s) as [|w ws].
      * cbn. destruct (retired (mv new)); cbn; lia.
      * apply retired_at_most_one; try assumption.
        inversion Hon; inversion Hw; subst. cbn. lia.
  - destruct (Hmv (walls s)) as (M1 & M2 & M3); try assumption.
    repeat split; try assumption.
    apply retired_at_most_one; try assumption.
    destruct (walls s) as [|w ws]; cbn; [exact I|].
    inversion Hon; inversion Hw; subst. cbn. lia.
Qed.

(** *** [update] as a whole *)

Lemma advance_unfold c rnd s :
  let s1 := fst (retire (scroll c (generate c rnd (physics c s)))) in
  advance c rnd s
  = (fst (checkCollisions s1),
     snd (filterWalls (scrolledWalls c rnd s) (score s))
     ++ snd (checkCollisions s1)).
Proof.
  cbn zeta. unfold advance.
  pose proof (retire_log (scroll c (generate c rnd (physics c s)))) as Hlog.
  destruct (retire (scroll c (generate c rnd (physics c s)))) as [s1 o1].
  cbn [fst snd] in *. destruct (checkCollisions s1) as [s2 o2]. cbn [fst snd].
  subst o1. f_equal. f_equal. unfold scrolledWalls.
  unfold generate. destruct (wallDue c (physics c s)); reflexivity.
Qed.

Lemma generate_frame c rnd s :
  let s' := generate c rnd (physics c s) in
  score s' = score s /\ config s' = config s /\ width s' = width s
  /\ height s' = height s /\ gameRunning s' = gameRunning s
  /\ gameOver s' = gameOver s /\ difficulty s' = difficulty s
  /\ (lastWallX s = width s -> lastWallX s' = width s).
Proof.
  cbn zeta. unfold generate.
  destruct (wallDue c (physics c s)); cbn; repeat split; auto.
Qed.

(** The state [update] leaves, field by field. *)
Lemma advance_fields c rnd s :
  let ws := scrolledWalls c rnd s in
  let s' := fst (advance c rnd s) in
  walls s' = filter (fun w => negb (retired w)) ws
  /\ score s' = score s + Z.of_nat (List.length
       (filter (fun w => retired w && negb (Wall.scored w)) ws))
  /\ config s' = config s /\ width s' = width s /\ height s' = height s
  /\ difficulty s' = difficulty s
  /\ (lastWallX s = width s -> lastWallX s' = width s)
  /\ ghosty s' = ghosty (physics c s).
Proof.
  cbn zeta. rewrite advance_unfold. cbn [fst].
  set (s0 := scroll c (generate c rnd (physics c s))).
  destruct (checkCollisions_frame (fst (retire s0)))
    as (Hw & Hsc & Hcf & Hwd & Hl & Hg & Hh & Hd).
  rewrite Hw, Hsc, Hcf, Hwd, Hl, Hg, Hh, Hd, retire_spec.
  destruct (generate_frame c rnd s) as (G1 & G2 & G3 & G4 & G5 & G6 & G7 & G8).
  unfold s0, scrolledWalls, scroll. cbn.
  rewrite G1, G2, G3, G4, G7. repeat split; auto.
  unfold generate. destruct (wallDue c (physics c s)); reflexivity.
Qed.

Lemma Inv_advance c rnd s :
  Inv s -> config s = Some c -> Inv (fst (advance c rnd s)).
Proof.
  intros HI Hc.
  destruct (scrolledWalls_facts c rnd s HI Hc) as (Hu & Hw & Hs & _).
  destruct (advance_fields c rnd s) as (Ew & Esc & Ec & Ewd & _ & _ & El & _).
  constructor.
  - rewrite Ec. apply (inv_config s HI).
  - rewrite Ew. apply Forall_forall. intros w Hin. apply filter_In in Hin.
    rewrite Forall_forall in Hu. apply Hu, Hin.
  - rewrite Ew. apply Forall_forall. intros w Hin. apply filter_In in Hin.
    rewrite Forall_forall in Hw. apply Hw, Hin.
  - rewrite Ew. apply Forall_forall. intros w Hin. apply filter_In in Hin.
    destruct Hin as [_ Hr]. unfold retired in Hr.
    destruct (Z.ltb_spec (Wall.x w + Wall.width w) 0); [discriminate | lia].
  - rewrite Ew. now apply StronglySorted_filter.
  - rewrite Ewd. apply El, (inv_lastWallX s HI).
  - rewrite Esc. pose proof (inv_score s HI). lia.
Qed.

Lemma Inv_reset s : Inv s -> Inv (reset s).
Proof.
  intros HI. constructor; cbn;
    [apply (inv_config s HI) | constructor .. | reflexivity | lia].
Qed.

Lemma Inv_flags s b1 b2 :
  Inv s -> Inv (set_gameOver (set_gameRunning s b1) b2).
Proof. intros [H1 H2 H3 H4 H5 H6 H7]. constructor; cbn; assumption. Qed.

Lemma Inv_update s rnd : Inv s -> Inv (state_of (update s rnd)).
Proof.
  intros HI. unfold update.
  destruct (negb (gameRunning s) || gameOver s); [exact HI|].
  destruct (config s) as [c|] eqn:Hc; [|exact HI].
  pose proof (Inv_advance c rnd s HI Hc) as HA.
  destruct (advance c rnd s) as [s' o]. exact HA.
Qed.

Lemma Inv_gameLoop s rnd : Inv s -> Inv (state_of (gameLoop s rnd)).
Proof.
  intros HI. unfold gameLoop. destruct (gameRunning s); [|exact HI].
  pose proof (Inv_update s rnd HI) as HU.
  destruct (update s rnd); exact HU.
Qed.

Lemma Inv_call c s : Inv s -> Inv (state_of (call c s)).
Proof.
  intros HI. destruct c as [d|rnd| |code|rnd|rnd]; cbn [call].
  - destruct HI as [H1 H2 H3 H4 H5 H6 H7]. cbn. constructor; cbn; try assumption.
    intros c. apply difficulties_table.
  - unfold start, start_prefix.
    pose proof (Inv_gameLoop _ rnd (Inv_flags _ true false (Inv_reset s HI))) as HG.
    destruct (gameLoop _ rnd); exact HG.
  - destruct HI as [H1 H2 H3 H4 H5 H6 H7]. constructor; cbn; assumption.
  - unfold handleKeyPress, jump.
    destruct (_ && _ && _); [|exact HI].
    destruct (config s) eqn:Hc; [|exact HI].
    destruct HI as [H1 H2 H3 H4 H5 H6 H7]. constructor; cbn; assumption.
  - now apply Inv_update.
  - now apply Inv_gameLoop.
Qed.

Lemma Inv_constructor cv : Inv (constructor cv).
Proof. constructor; cbn; [discriminate | constructor .. | reflexivity | lia]. Qed.

Lemma reachable_Inv cv s : reachable cv s -> Inv s.
Proof.
  induction 1 as [|c s _ IH]; [apply Inv_constructor | now apply Inv_call].
Qed.

Lemma reachable_run cv cs s : reachable cv s -> reachable cv (run cs s).
Proof.
  revert s; induction cs as [|c cs IH]; intros s Hs; cbn; [exact Hs|].
  apply IH. now constructor.
Qed.

Lemma reachable_by_run cv cs s : run cs (constructor cv) = s -> reachable cv s.
Proof. intros <-. apply reachable_run, reach_new. Qed.

Lemma plain_reachable cv s : Plain.reachable cv s -> reachable cv s.
Proof. induction 1; [apply reach_new | now apply reach_call]. Qed.

Lemma plain_by_run cv cs s :
  forallb Plain.plainCall cs = true -> run cs (constructor cv) = s ->
  Plain.reachable cv s.
Proof.
  intros Hp <-.
  assert (gen : forall cs s0, forallb Plain.plainCall cs = true ->
            Plain.reachable cv s0 -> Plain.reachable cv (run cs s0)).
  { clear. induction cs as [|c cs IH]; intros s0 Hp Hs; [exact Hs|].
    cbn [forallb] in Hp. apply andb_true_iff in Hp. destruct Hp as [Hc Hp].
    cbn [run]. apply IH; [exact Hp | now apply Plain.reach_call]. }
  apply gen; [exact Hp | apply Plain.reach_new].
Qed.

Lemma lookup_cases d :
  (exists c, Plain.lookup d = Plain.Profile c /\ difficulties d = Some c
             /\ Plain.inherited d = false)
  \/ (Plain.lookup d = Plain.Undefined /\ difficulties d = None
      /\ Plain.inherited d = false)
  \/ (Plain.lookup d = Plain.InheritedValue /\ difficulties d = None
      /\ Plain.inherited d = true).
Proof.
  unfold Plain.lookup, difficulties.
  destruct (String.eqb_spec d "easy") as [->|_]; [left; eexists; repeat split|].
  destruct (String.eqb_spec d "medium") as [->|_]; [left; eexists; repeat split|].
  destruct (String.eqb_spec d "hard") as [->|_]; [left; eexists; repeat split|].
  destruct (Plain.inherited d); [right; right | right; left]; repeat split.
Qed.

Lemma update_running s rnd c :
  gameRunning s = true -> gameOver s = false -> config s = Some c ->
  update s rnd = Normal (fst (advance c rnd s)) (snd (advance c rnd s)).
Proof.
  intros Hr Ho Hc. unfold update. rewrite Hr, Ho, Hc. cbn.
  now destruct (advance c rnd s).
Qed.

Lemma update_idle s rnd :
  gameRunning s = false \/ gameOver s = true -> update s rnd = Normal s [].
Proof.
  intros [H|H]; unfold update; rewrite H; [reflexivity|].
  now rewrite orb_true_r.
Qed.

(** The terminal flag after a step is the verdict of the collision checks
    on the state the step itself has produced. *)
Lemma advance_gameOver c rnd s :
  gameOver s = false ->
  let s' := fst (advance c rnd s) in
  gameOver s' = hitsBoundary (ghosty s') (height s')
                || hitsWall (ghosty s') (walls s').
Proof.
  intros Ho. cbn zeta. rewrite advance_unfold. cbn [fst].
  set (s1 := fst (retire _)).
  assert (H1 : gameOver s1 = false).
  { unfold s1. rewrite retire_spec. cbn.
    destruct (generate_frame c rnd s) as (_ & _ & _ & _ & _ & G & _). now rewrite G. }
  destruct (checkCollisions_cases s1) as [(E & B & W)|[(E & B)|(E & B & W)]];
    rewrite E; cbn; rewrite ?B, ?W; auto.
Qed.

(** C1.  In a running, non-terminal state one [update] first adds the
    gravity to the velocity and then the new velocity to the position;
    generation, scroll, retirement and the collision checks come after
    and see the new position.  With the easy profile, from y = 300 at
    rest, one step gives velocity 0.3 and y = 300.3; a jump and then one
    step give velocity -5.7 and y = 294.3. *)
Theorem update_integrates_first (s : t) (rnd : float) (c : Config.t) :
  gameRunning s = true -> gameOver s = false -> config s = Some c ->
  let v' := (Ghosty.velocity (ghosty s) + Config.gravity c)%float in
  let y' := (Ghosty.y (ghosty s) + v')%float in
  exists s' out,
    update s rnd = Normal s' out
    /\ Ghosty.velocity (ghosty s') = v'
    /\ Ghosty.y (ghosty s') = y'
    /\ Ghosty.velocity (ghosty (physics c s)) = v'
    /\ Ghosty.y (ghosty (physics c s)) = y'
    /\ (s', out) =
         (let (s1, o1) := retire (scroll c (generate c rnd (physics c s))) in
          let (s2, o2) := checkCollisions s1 in (s2, o1 ++ o2))
    /\ gameOver s' = hitsBoundary (ghosty s') (height s')
                     || hitsWall (ghosty s') (walls s')
    /\ (c = easy -> Ghosty.y (ghosty s) = 300%float ->
        (Ghosty.velocity (ghosty s) = 0%float ->
           Ghosty.velocity (ghosty s') = 0.3%float
           /\ Ghosty.y (ghosty s') = 300.3%float)
        /\ (exists sj oj s2 o2,
              handleKeyPress s "Space" = Normal sj oj
              /\ Ghosty.velocity (ghosty sj) = (-6)%float
              /\ update sj rnd = Normal s2 o2
              /\ Ghosty.velocity (ghosty s2) = (-5.7)%float
              /\ Ghosty.y (ghosty s2) = 294.3%float)).
Proof.
  intros Hr Ho Hc v' y'.
  exists (fst (advance c rnd s)), (snd (advance c rnd s)).
  destruct (advance_fields c rnd s) as (_ & _ & _ & _ & _ & _ & _ & Hg).
  split; [now apply update_running|].
  rewrite Hg.
  split; [reflexivity|]. split; [reflexivity|].
  split; [reflexivity|]. split; [reflexivity|].
  split.
  { unfold advance.
    destruct (retire (scroll c (generate c rnd (physics c s)))) as [s1 o1].
    now destruct (checkCollisions s1). }
  split.
  { rewrite <- Hg. now apply advance_gameOver. }
  intros -> Hy. split.
  - intros Hv. cbn. rewrite Hy, Hv. split; reflexivity.
  - set (sj := set_velocity s (Config.jumpStrength easy)).
    exists sj, [PreventDefault; Log "debug" "Ghosty jumped"
                  [("velocity", JNum (Config.jumpStrength easy))]],
           (fst (advance easy rnd sj)), (snd (advance easy rnd sj)).
    destruct (advance_fields easy rnd sj) as (_ & _ & _ & _ & _ & _ & _ & Hj).
    split; [unfold handleKeyPress, jump; rewrite Hr, Ho, Hc; reflexivity|].
    split; [reflexivity|].
    split; [now apply update_running|].
    rewrite Hj. cbn. rewrite Hy. split; reflexivity.
Qed.

Lemma update_integrates_first_witness :
  exists s' out,
    update Examples.atRest 0.5%float = Normal s' out
    /\ Ghosty.velocity (ghosty s') = 0.3%float
    /\ Ghosty.y (ghosty s') = 300.3%float.
Proof.
  assert (Hr : gameRunning Examples.atRest = true) by (vm_compute; reflexivity).
  assert (Ho : gameOver Examples.atRest = false) by (vm_compute; reflexivity).
  assert (Hc : config Examples.atRest = Some easy) by (vm_compute; reflexivity).
  assert (Hy : Ghosty.y (ghosty Examples.atRest) = 300%float)
    by (vm_compute; reflexivity).
  assert (Hv : Ghosty.velocity (ghosty Examples.atRest) = 0%float)
    by (vm_compute; reflexivity).
  destruct (update_integrates_first Examples.atRest 0.5%float easy Hr Ho Hc)
    as (s' & out & E & _ & _ & _ & _ & _ & _ & Hscn).
  destruct (Hscn eq_refl Hy) as [Hrest _].
  exists s', out. split; [exact E | exact (Hrest Hv)].
Defined.

(** C4.  A press of the space bar sets the velocity to the jump strength
    of the bound profile, whatever the velocity was, when the run is
    running and not over, and touches no other field; in every other
    state the press changes nothing and raises nothing.  The state
    changes only if the run is running and not over. *)
Theorem handleKeyPress_impulse (s : t) :
  (gameRunning s = true /\ gameOver s = false ->
   forall c, config s = Some c ->
     handleKeyPress s "Space"
     = Normal (set_velocity s (Config.jumpStrength c))
              [PreventDefault;
               Log "debug" "Ghosty jumped"
                   [("velocity", JNum (Config.jumpStrength c))]]
     /\ Ghosty.velocity (ghosty (set_velocity s (Config.jumpStrength c)))
        = Config.jumpStrength c
     /\ Ghosty.y (ghosty (set_velocity s (Config.jumpStrength c)))
        = Ghosty.y (ghosty s))
  /\ (gameRunning s = false \/ gameOver s = true ->
      handleKeyPress s "Space" = Normal s [])
  /\ (state_of (handleKeyPress s "Space") <> s ->
      gameRunning s = true /\ gameOver s = false).
Proof.
  unfold handleKeyPress, jump.
  change ("Space" =? "Space")%string with true. cbn [andb].
  split; [|split].
  - intros [-> ->] c ->. repeat split.
  - intros [-> | ->]; cbn; [reflexivity|].
    now rewrite andb_false_r.
  - intros Hn. destruct (gameRunning s), (gameOver s); cbn in Hn;
      try (now destruct Hn). split; reflexivity.
Qed.

Lemma handleKeyPress_impulse_witness :
  Ghosty.velocity (ghosty (state_of (handleKeyPress Examples.started "Space")))
  = (-6)%float
  /\ handleKeyPress Examples.configured "Space" = Normal Examples.configured [].
Proof.
  assert (C1 : config Examples.started = Some easy) by (vm_compute; reflexivity).
  assert (R1 : gameRunning Examples.started = true) by (vm_compute; reflexivity).
  assert (O1 : gameOver Examples.started = false) by (vm_compute; reflexivity).
  assert (R2 : gameRunning Examples.configured = false) by (vm_compute; reflexivity).
  destruct (handleKeyPress_impulse Examples.started) as (H1 & _ & _).
  destruct (handleKeyPress_impulse Examples.configured) as (_ & H2 & _).
  split.
  - destruct (H1 (conj R1 O1) easy C1) as (E & _ & _). rewrite E. reflexivity.
  - exact (H2 (or_introl R2)).
Defined.

(** C10.  [stop] clears the running flag and leaves every other field as
    it was: score, terminal flag, actor, walls, profile and size. *)
Theorem stop_changes_only_running (s : t) :
  let s' := fst (stop s) in
  call Stop s = Normal s' (snd (stop s))
  /\ s' = set_gameRunning s false
  /\ gameRunning s' = false
  /\ score s' = score s
  /\ gameOver s' = gameOver s
  /\ ghosty s' = ghosty s
  /\ walls s' = walls s
  /\ difficulty s' = difficulty s
  /\ config s' = config s
  /\ width s' = width s /\ height s' = height s
  /\ lastWallX s' = lastWallX s.
Proof. cbn. repeat split. Qed.

(** C5, as the code has it.  [setDifficulty] has no guard: in every state,
    running or not, it returns normally, binds the name it is given and
    leaves the run as it is.  The profile it binds is what the table
    holds for the name: the profile for a key of the table, nothing for a
    name that is no property of the table object.  (For a name the table
    inherits from [Object.prototype] it binds the inherited value; nothing
    is said of the profile then.) *)
Theorem setDifficulty_always_binds (s : t) (d : string) :
  let r := call (SetDifficulty d) s in
  let s' := state_of r in
  throws r = false
  /\ effects_of r = [Log "info" "Difficulty set" [("difficulty", JStr d)]]
  /\ difficulty s' = Some d
  /\ gameRunning s' = gameRunning s /\ gameOver s' = gameOver s
  /\ score s' = score s /\ ghosty s' = ghosty s /\ walls s' = walls s
  /\ lastWallX s' = lastWallX s /\ width s' = width s /\ height s' = height s
  /\ (forall c, Plain.lookup d = Plain.Profile c ->
        config s' = Some c /\ (c = easy \/ c = medium \/ c = hard))
  /\ (Plain.lookup d = Plain.Undefined -> config s' = None)
  /\ (Plain.inherited d = false -> config s' = difficulties d).
Proof.
  cbn. do 11 (split; [reflexivity|]). split; [|split].
  - intros c H.
    destruct (lookup_cases d) as [(c0 & L & D & _)|[(L & _)|(L & _)]];
      rewrite L in H; try discriminate. injection H as <-.
    split; [exact D | now apply difficulties_table in D].
  - intros H.
    destruct (lookup_cases d) as [(c0 & L & _)|[(_ & D & _)|(L & _)]];
      [rewrite L in H; discriminate | exact D | rewrite L in H; discriminate].
  - reflexivity.
Qed.

Lemma setDifficulty_always_binds_witness :
  config (state_of (call (SetDifficulty "hard") Examples.started)) = Some hard
  /\ config (state_of (call (SetDifficulty "insane") Examples.started)) = None.
Proof.
  destruct (setDifficulty_always_binds Examples.started "hard")
    as (_ & _ & _ & _ & _ & _ & _ & _ & _ & _ & _ & H1 & _).
  destruct (setDifficulty_always_binds Examples.started "insane")
    as (_ & _ & _ & _ & _ & _ & _ & _ & _ & _ & _ & _ & H2 & _).
  split; [exact (proj1 (H1 hard eq_refl)) | exact (H2 eq_refl)].
Defined.

(** C5 fails on the code: on an engine that is running with the easy
    profile, [setDifficulty "hard"] raises nothing and rebinds the
    profile. *)
Lemma setDifficulty_while_running :
  gameRunning Examples.started = true
  /\ config Examples.started = Some easy
  /\ throws (call (SetDifficulty "hard") Examples.started) = false
  /\ config (state_of (call (SetDifficulty "hard") Examples.started)) = Some hard
  /\ gameRunning (state_of (call (SetDifficulty "hard") Examples.started)) = true.
Proof. repeat split; vm_compute; reflexivity. Qed.

(** *** Scoring *)

Lemma scrolledWalls_length c rnd s :
  List.length (scrolledWalls c rnd s)
  = (List.length (walls s) + if wallDue c s then 1 else 0)%nat.
Proof.
  unfold scrolledWalls, scroll, generate. cbn [walls set_walls].
  rewrite length_map.
  change (wallDue c (physics c s)) with (wallDue c s).
  destruct (wallDue c s); cbn [walls generateWall set_walls set_lastWallX physics set_ghosty].
  - now rewrite length_app.
  - lia.
Qed.

Lemma scrolledWalls_head c rnd s w ws :
  walls s = w :: ws ->
  exists tl, scrolledWalls c rnd s
             = Wall.set_x w (Wall.x w - Config.wallSpeed c) :: tl.
Proof.
  intros Hw. unfold scrolledWalls, scroll, generate. cbn [walls set_walls].
  destruct (wallDue c (physics c s));
    cbn [walls generateWall set_walls set_lastWallX physics set_ghosty];
    rewrite Hw; cbn; eauto.
Qed.

(** C2.  On a reachable, running, non-terminal state one [update] leaves
    the score where it was or adds one to it.  The score grows by the
    number of walls the step drops, the walls it drops are those whose
    trailing edge has passed the left edge, they leave the list with
    their flag set, and every wall still in the list, before and after,
    has its flag clear: a wall is scored when it is retired, once, and at
    no other time. *)
Theorem score_by_retirement (cv : Canvas) (s : t) (rnd : float) (c : Config.t) :
  reachable cv s ->
  gameRunning s = true -> gameOver s = false -> config s = Some c ->
  let s' := state_of (update s rnd) in
  let ws := scrolledWalls c rnd s in
  let gone := droppedWalls c rnd s in
  score s <= score s' <= score s + 1
  /\ score s' = score s + Z.of_nat (List.length gone)
  /\ gone = map (fun w => Wall.set_scored w true) (filter retired ws)
  /\ walls s' = filter (fun w => negb (retired w)) ws
  /\ Forall unscored (walls s)
  /\ Forall unscored ws
  /\ Forall unscored (walls s')
  /\ Forall (fun w => Wall.scored w = true) gone
  /\ Z.of_nat (List.length (filter isScoreRecord (effects_of (update s rnd))))
     = score s' - score s
  /\ score s' + Z.of_nat (List.length (walls s'))
     = score s + Z.of_nat (List.length (walls s))
       + (if wallDue c s then 1 else 0).
Proof.
  intros Hreach Hr Ho Hc. cbn zeta.
  pose proof (reachable_Inv cv s Hreach) as HI.
  rewrite (update_running s rnd c Hr Ho Hc). cbn [state_of effects_of].
  destruct (scrolledWalls_facts c rnd s HI Hc) as (Hu & Hw & Hs & Hone).
  destruct (advance_fields c rnd s) as (Ew & Esc & _).
  rewrite (filter_unscored _ Hu) in Esc.
  assert (Hgone : droppedWalls c rnd s
                  = map (fun w => Wall.set_scored w true)
                        (filter retired (scrolledWalls c rnd s)))
    by apply filterWalls_gone.
  assert (Hlen : List.length (droppedWalls c rnd s)
                 = List.length (filter retired (scrolledWalls c rnd s)))
    by (rewrite Hgone; apply length_map).
  rewrite Hlen, Ew, Esc.
  split; [lia|]. split; [reflexivity|]. split; [exact Hgone|].
  split; [reflexivity|]. split; [apply (inv_unscored s HI)|].
  split; [exact Hu|].
  split.
  { apply Forall_forall. intros w Hin. apply filter_In in Hin.
    rewrite Forall_forall in Hu. apply Hu, Hin. }
  split.
  { rewrite Hgone. apply Forall_forall. intros w Hin.
    apply in_map_iff in Hin. destruct Hin as (v & <- & _). reflexivity. }
  split.
  { rewrite advance_unfold. cbn [snd]. rewrite filter_app.
    destruct (filterWalls_log (scrolledWalls c rnd s) (score s)) as [Hall Hn].
    rewrite filterWalls_score, (filter_unscored _ Hu) in Hn.
    assert (F1 : forall l, Forall (fun e => isScoreRecord e = true) l ->
                           filter isScoreRecord l = l).
    { induction 1 as [|e l He _ IH]; cbn; [reflexivity|]. now rewrite He, IH. }
    rewrite (F1 _ Hall), length_app.
    assert (F2 : filter isScoreRecord (snd (checkCollisions
                   (fst (retire (scroll c (generate c rnd (physics c s))))))) = []).
    { destruct (checkCollisions_cases
                  (fst (retire (scroll c (generate c rnd (physics c s))))))
        as [[-> _]|[[-> _]|[-> _]]]; reflexivity. }
    rewrite F2. cbn [List.length]. lia. }
  pose proof (filter_length retired (scrolledWalls c rnd s)) as Hfl.
  pose proof (scrolledWalls_length c rnd s) as Hsl.
  destruct (wallDue c s); lia.
Qed.

Lemma score_by_retirement_witness :
  score Examples.firstWallLeaving = 0
  /\ score (state_of (update Examples.firstWallLeaving 0.5%float)) = 1
  /\ score Examples.firstWallLeaving
     <= score (state_of (update Examples.firstWallLeaving 0.5%float))
     <= score Examples.firstWallLeaving + 1.
Proof.
  split; [vm_compute; reflexivity|]. split; [vm_compute; reflexivity|].
  refine (proj1 (score_by_retirement Examples.canvas800x600
                   Examples.firstWallLeaving 0.5%float easy _ _ _ _)).
  - apply (reachable_by_run _
      (SetDifficulty "easy" :: Start 0.5%float :: List.concat (repeat Examples.hop 11))).
    vm_compute; reflexivity.
  - vm_compute; reflexivity.
  - vm_compute; reflexivity.
  - vm_compute; reflexivity.
Defined.

(** *** Totality *)

Lemma filter_all {A} (f : A -> bool) l :
  List.length (filter f l) = 0%nat -> filter (fun x => negb (f x)) l = l.
Proof.
  induction l as [|a l IH]; cbn; [reflexivity|].
  destruct (f a); cbn; [discriminate|]. intros H. now rewrite IH.
Qed.

(** A step that gets past the guard of [update] never leaves the state as
    it found it: a wall is counted, or a first wall appears, or the first
    wall moves. *)
Lemma advance_changes c rnd s :
  Inv s -> config s = Some c -> fst (advance c rnd s) <> s.
Proof.
  intros HI Hc Heq.
  destruct (tableConfig_bounds c (inv_config s HI c Hc)) as [Hsp _].
  destruct (scrolledWalls_facts c rnd s HI Hc) as (Hu & _).
  destruct (advance_fields c rnd s) as (Ew & Esc & _).
  rewrite (filter_unscored _ Hu) in Esc. rewrite Heq in Ew, Esc.
  assert (H0 : List.length (filter retired (scrolledWalls c rnd s)) = 0%nat) by lia.
  rewrite (filter_all _ _ H0) in Ew.
  pose proof (scrolledWalls_length c rnd s) as Hlen. rewrite <- Ew in Hlen.
  destruct (walls s) as [|w ws] eqn:Hws.
  - unfold wallDue in Hlen. rewrite Hws in Hlen. cbn in Hlen. lia.
  - destruct (scrolledWalls_head c rnd s w ws Hws) as [tl Htl].
    rewrite Htl in Ew. injection Ew as Ex _.
    apply (f_equal Wall.x) in Ex. cbn in Ex. lia.
Qed.

(** C6, as the code has it.  Take a state reached by calls that give
    [setDifficulty] no name the table inherits from [Object.prototype]
    ([Plain.reachable]).  With a profile bound [update] raises nothing, and
    it leaves the state untouched and writes nothing exactly when the run
    is not running or is over.  With [config] undefined it still does
    nothing when the run is not running or is over, and raises a
    TypeError, state untouched, when it is running. *)
Theorem update_total_when_configured (cv : Canvas) (s : t) (rnd : float) :
  Plain.reachable cv s ->
  (forall c, config s = Some c ->
     throws (update s rnd) = false
     /\ (state_of (update s rnd) = s
         <-> gameRunning s = false \/ gameOver s = true)
     /\ (gameRunning s = true /\ gameOver s = false ->
         update s rnd = Normal (fst (advance c rnd s)) (snd (advance c rnd s))))
  /\ (gameRunning s = false \/ gameOver s = true -> update s rnd = Normal s [])
  /\ (config s = None -> gameRunning s = true -> gameOver s = false ->
      update s rnd = Throw (TypeError "gravity") s []).
Proof.
  intros Hplain. pose proof (plain_reachable cv s Hplain) as Hreach.
  pose proof (reachable_Inv cv s Hreach) as HI.
  split; [|split].
  - intros c Hc. split; [|split].
    + unfold update. rewrite Hc.
      destruct (negb (gameRunning s) || gameOver s); [reflexivity|].
      now destruct (advance c rnd s).
    + split.
      * intros Heq.
        destruct (gameRunning s) eqn:Hr; [|now left].
        destruct (gameOver s) eqn:Ho; [now right|].
        rewrite (update_running s rnd c Hr Ho Hc) in Heq. cbn in Heq.
        exfalso. exact (advance_changes c rnd s HI Hc Heq).
      * intros H. now rewrite (update_idle s rnd H).
    + intros [Hr Ho]. now apply update_running.
  - apply update_idle.
  - intros Hc Hr Ho. unfold update. now rewrite Hr, Ho, Hc.
Qed.

Lemma update_total_when_configured_witness :
  throws (update Examples.started 0.5%float) = false
  /\ update Examples.configured 0.5%float = Normal Examples.configured [].
Proof.
  assert (R1 : Plain.reachable Examples.canvas800x600 Examples.configured)
    by (apply (plain_by_run _ [SetDifficulty "easy"]); vm_compute; reflexivity).
  assert (R2 : Plain.reachable Examples.canvas800x600 Examples.started)
    by (apply (plain_by_run _ [SetDifficulty "easy"; Start 0.5%float]);
        vm_compute; reflexivity).
  assert (C2 : config Examples.started = Some easy) by (vm_compute; reflexivity).
  assert (G1 : gameRunning Examples.configured = false) by (vm_compute; reflexivity).
  split.
  - exact (proj1 (proj1 (update_total_when_configured _ _ 0.5%float R2) easy C2)).
  - exact (proj1 (proj2 (update_total_when_configured _ _ 0.5%float R1))
                 (or_introl G1)).
Defined.

(** C6 fails on the code: an engine started with no difficulty bound is
    reachable and running, and [update] on it raises a TypeError; so does
    the [start] that led there. *)
Lemma update_faults_unconfigured :
  Plain.reachable Examples.canvas800x600 Examples.unconfigured
  /\ gameRunning Examples.unconfigured = true
  /\ gameOver Examples.unconfigured = false
  /\ update Examples.unconfigured 0.5%float
     = Throw (TypeError "gravity") Examples.unconfigured []
  /\ throws (start (constructor Examples.canvas800x600) 0.5%float) = true.
Proof.
  split; [apply (plain_by_run _ [Start 0.5%float]); vm_compute; reflexivity|].
  repeat split; vm_compute; reflexivity.
Qed.

(** *** How a run ends *)







End GameProps.


(** ** Properties of the username gate *)

Module UsernameProps.
Import Username.

Lemma between_spec lo hi c :
  between lo hi c = true <-> (code lo <= code c <= code hi)%N.
Proof.
  unfold between. rewrite andb_true_iff, !N.leb_le. tauto.
Qed.

Lemma inClass_spec c : inClass c = true <-> InClass c.
Proof.
  unfold inClass, InClass.
  rewrite !orb_true_iff, !between_spec, !Ascii.eqb_eq. tauto.
Qed.

(** The greedy run stops at the end of the input only if every character
    was in the class and there were no more of them than it may take. *)
Lemma takeClass_end fuel s n :
  takeClass fuel s = (n, "") <->
  AllInClass s /\ String.length s = n /\ (n <= fuel)%nat.
Proof.
  revert s n; induction fuel as [|fuel IH]; intros s n.
  - cbn. destruct s as [|c s]; cbn.
    + split; [intros [= <-]; auto | intros (_ & <- & _); reflexivity].
    + split; [discriminate | intros (_ & L & H); exfalso; lia].
  - destruct s as [|c s]; cbn [takeClass AllInClass String.length].
    + split; [intros [= <-]; repeat split; lia | intros (_ & <- & _); reflexivity].
    + destruct (inClass c) eqn:Hc.
      * destruct (takeClass fuel s) as [m rest] eqn:Ht.
        split.
        -- intros [= <- ->]. destruct (proj1 (IH s m) Ht) as (A & L & B).
           apply inClass_spec in Hc. repeat split; auto; lia.
        -- intros ((_ & A) & L & B). destruct n as [|n]; [discriminate|].
           assert (Hn : takeClass fuel s = (n, ""))
             by (apply IH; repeat split; auto; lia).
           rewrite Ht in Hn. now injection Hn as -> ->.
      * split; [discriminate|]. intros ((A & _) & _).
        apply inClass_spec in A. congruence.
Qed.

Lemma patternTest_spec s : patternTest s = true <-> MatchesPattern s.
Proof.
  unfold patternTest, MatchesPattern.
  destruct (takeClass 20 s) as [n rest] eqn:Ht.
  rewrite andb_true_iff, Nat.leb_le, String.eqb_eq. split.
  - intros [Hn ->]. apply takeClass_end in Ht. destruct Ht as (A & L & B).
    split; [lia | exact A].
  - intros [[H1 H20] A].
    assert (Hn : takeClass 20 s = (String.length s, ""))
      by (apply takeClass_end; auto).
    rewrite Ht in Hn. injection Hn as -> ->. auto.
Qed.

Lemma toLowerCase_app u v :
  toLowerCase (u ++ v) = (toLowerCase u ++ toLowerCase v)%string.
Proof. induction u as [|c u IH]; cbn; [reflexivity | now rewrite IH]. Qed.

Lemma toLowerCase_split s p q :
  toLowerCase s = (p ++ q)%string ->
  exists s1 s2, s = (s1 ++ s2)%string /\ toLowerCase s1 = p /\ toLowerCase s2 = q.
Proof.
  revert s; induction p as [|c p IH]; intros s H; cbn in H.
  - exists ""%string, s. auto.
  - destruct s as [|d s]; [discriminate|]. cbn in H. injection H as Hc Hs.
    destruct (IH s Hs) as (s1 & s2 & -> & <- & <-).
    exists (String d s1), s2. cbn. now rewrite Hc.
Qed.

Lemma sameIgnoringCase_spec u v :
  SameIgnoringCase u v <-> toLowerCase u = toLowerCase v.
Proof.
  revert v; induction u as [|a u IH]; intros [|b v]; cbn;
    try (split; [tauto | discriminate]).
  - split; auto.
  - rewrite IH. split; [intros [-> ->]; reflexivity | intros [= -> ->]; auto].
Qed.

Lemma prefix_spec p s :
  String.prefix p s = true <-> exists post, s = (p ++ post)%string.
Proof.
  revert s; induction p as [|c p IH]; intros s.
  - split; [intros _; now exists s | intros _; now destruct s].
  - destruct s as [|d s]; cbn.
    + split; [discriminate | intros (post & H); discriminate].
    + destruct (ascii_dec c d) as [<-|Hn].
      * rewrite IH. split; intros (post & H); exists post; congruence.
      * split; [discriminate | intros (post & [= H _]); congruence].
Qed.

Lemma includes_spec s sub :
  includes s sub = true <-> exists pre post, s = (pre ++ sub ++ post)%string.
Proof.
  induction s as [|c s IH]; cbn [includes]; rewrite orb_true_iff, prefix_spec.
  - split.
    + intros [(post & H)|H]; [now exists ""%string, post | discriminate].
    + intros (pre & post & H). left. destruct pre; [now exists post | discriminate].
  - rewrite IH. split.
    + intros [(post & H)|(pre & post & ->)];
        [now exists ""%string, post | now exists (String c pre), post].
    + intros (pre & post & H). destruct pre as [|d pre].
      * left. now exists post.
      * right. injection H as _ ->. now exists pre, post.
Qed.

Lemma containsIgnoringCase_spec s word :
  includes (toLowerCase s) (toLowerCase word) = true
  <-> ContainsIgnoringCase s word.
Proof.
  rewrite includes_spec. unfold ContainsIgnoringCase. split.
  - intros (pre & post & H).
    destruct (toLowerCase_split _ _ _ H) as (s1 & s23 & -> & <- & H23).
    destruct (toLowerCase_split _ _ _ H23) as (s2 & s3 & -> & H2 & <-).
    exists s1, s2, s3. split; [reflexivity | now apply sameIgnoringCase_spec].
  - intros (pre & mid & post & -> & H). apply sameIgnoringCase_spec in H.
    exists (toLowerCase pre), (toLowerCase post).
    now rewrite !toLowerCase_app, H.
Qed.

Lemma isValid_spec s : isValid s = true <-> Accepted s.
Proof.
  unfold isValid, Accepted, containsInappropriateContent.
  rewrite andb_true_iff, negb_true_iff, patternTest_spec.
  split; intros [Hp Hd]; (split; [exact Hp|]).
  - intros word Hin Hc. apply containsIgnoringCase_spec in Hc.
    assert (Ht : existsb (fun w => includes (toLowerCase s) (toLowerCase w))
                         inappropriateWords = true)
      by (apply existsb_exists; eauto).
    congruence.
  - destruct (existsb _ _) eqn:He; [|reflexivity].
    apply existsb_exists in He. destruct He as (word & Hin & Hc).
    apply containsIgnoringCase_spec in Hc. now destruct (Hd word Hin).
Qed.

(** *** The code's lower-casing against the design document's wording *)

Lemma code_inj a b : code a = code b -> a = b.
Proof.
  unfold code. intros H. rewrite <- (ascii_N_embedding a), <- (ascii_N_embedding b).
  now rewrite H.
Qed.

Lemma code_lowerChar a :
  code (lowerChar a)
  = if between "A" "Z" a then (code a + 32)%N else code a.
Proof.
  unfold lowerChar. destruct (between "A" "Z" a) eqn:Hb; [|reflexivity].
  apply between_spec in Hb. change (code "A") with 65%N in Hb.
  change (code "Z") with 90%N in Hb.
  unfold code at 1. apply N_ascii_embedding. lia.
Qed.

Lemma sameLetter_spec a b :
  UsernameSpec.SameLetter a b <-> lowerChar a = lowerChar b.
Proof.
  unfold UsernameSpec.SameLetter.
  change (code "A") with 65%N. change (code "Z") with 90%N.
  split.
  - intros H. apply code_inj. rewrite !code_lowerChar.
    destruct (between "A" "Z" a) eqn:Ha, (between "A" "Z" b) eqn:Hb;
      try apply between_spec in Ha; try apply between_spec in Hb;
      try (apply not_true_iff_false in Ha; rewrite between_spec in Ha);
      try (apply not_true_iff_false in Hb; rewrite between_spec in Hb);
      change (code "A") with 65%N in *; change (code "Z") with 90%N in *;
      destruct H as [->|[[H1 H2]|[H1 H2]]]; lia.
  - intros H. apply (f_equal code) in H. rewrite !code_lowerChar in H.
    destruct (between "A" "Z" a) eqn:Ha, (between "A" "Z" b) eqn:Hb;
      try apply between_spec in Ha; try apply between_spec in Hb;
      change (code "A") with 65%N in *; change (code "Z") with 90%N in *.
    + left. apply code_inj. lia.
    + right. left. split; [lia | lia].
    + right. right. split; [lia | lia].
    + left. now apply code_inj.
Qed.

Lemma sameWord_spec u v :
  UsernameSpec.SameWord u v <-> SameIgnoringCase u v.
Proof.
  revert v; induction u as [|a u IH]; intros [|b v]; cbn; try tauto.
  now rewrite IH, sameLetter_spec.
Qed.

Lemma contains_spec s word :
  UsernameSpec.Contains s word <-> ContainsIgnoringCase s word.
Proof.
  unfold UsernameSpec.Contains, ContainsIgnoringCase.
  split; intros (pre & mid & post & E & H); exists pre, mid, post;
    (split; [exact E | now apply sameWord_spec]).
Qed.

Lemma permitted_spec s : isValid s = true <-> UsernameSpec.Permitted s.
Proof.
  rewrite isValid_spec. unfold Accepted, UsernameSpec.Permitted.
  split; intros [Hp Hd]; (split; [exact Hp|]); intros word Hin Hc;
    apply (Hd word Hin); now apply contains_spec.
Qed.

End UsernameProps.


(** ** Properties of the controller *)

Module AppProps.
Import App.

(** *** The gate and the request *)

Lemma submitScore_rejected a ts :
  Username.isValid (username a) = false ->
  submitScore a ts
  = Normal (set_validation a "#f44336" true)
           [Alert "Please enter a valid username (alphanumeric, underscore, hyphen only, 1-20 characters)"].
Proof. intros H. unfold submitScore, validateUsername. now rewrite H. Qed.

Lemma submitScore_accepted a ts g :
  Username.isValid (username a) = true -> engine a = Some g ->
  let scoreData :=
    [("username", JStr (username a)); ("score", JInt (Game.getScore g));
     ("difficulty", Game.difficulty_val g); ("timestamp", JStr ts)] in
  submitScore a ts
  = Normal (set_pending (set_validation a "#4CAF50" false)
                        (pending a ++ [scoreData]))
           [Fetch "POST" "/api/scores" scoreData].
Proof.
  intros H Hg. unfold submitScore, validateUsername. rewrite H. cbn.
  now rewrite Hg.
Qed.

(** C7.  [validateUsername] accepts a string exactly when it matches
    [^[A-Za-z0-9_-]{1,20}$] and contains none of the listed words, case
    ignored: an upper-case letter counts as the lower-case letter 32
    places after it ([UsernameSpec.Permitted], which does not go through
    the code's lower-casing).  "Player_1" passes; "admin", "root2", "a b",
    the empty string and every string of 21 characters fail, and so do
    "ADMIN", "Root_1", "xTeSt", "NULL" and "Undefined".  [submitScore]
    computes the verdict afresh from the field, whatever the page showed
    before, and on a failing verdict it ends with an alert: no request
    goes out and nothing is added to the pending ones. *)
Theorem username_gate :
  (forall s, Username.isValid s = true <-> Username.Accepted s)
  /\ (forall s, Username.isValid s = true <-> UsernameSpec.Permitted s)
  /\ Username.isValid "ADMIN" = false
  /\ Username.isValid "Root_1" = false
  /\ Username.isValid "xTeSt" = false
  /\ Username.isValid "NULL" = false
  /\ Username.isValid "Undefined" = false
  /\ Username.isValid "Player_1" = true
  /\ Username.isValid "admin" = false
  /\ Username.isValid "root2" = false
  /\ Username.isValid "a b" = false
  /\ Username.isValid "" = false
  /\ (forall s, String.length s = 21%nat -> Username.isValid s = false)
  /\ (forall a, snd (validateUsername a) = Username.isValid (username a))
  /\ (forall a ts,
        Username.isValid (username a) = false ->
        throws (submitScore a ts) = false
        /\ filter isScoreRequest (effects_of (submitScore a ts)) = []
        /\ (forall method url body,
              ~ In (Fetch method url body) (effects_of (submitScore a ts)))
        /\ pending (state_of (submitScore a ts)) = pending a
        /\ submitDisabled (state_of (submitScore a ts)) = true)
  /\ (forall a ts g,
        Username.isValid (username a) = true -> engine a = Some g ->
        filter isScoreRequest (effects_of (submitScore a ts))
        = [Fetch "POST" "/api/scores"
             [("username", JStr (username a));
              ("score", JInt (Game.getScore g));
              ("difficulty", Game.difficulty_val g);
              ("timestamp", JStr ts)]]).
Proof.
  split; [exact UsernameProps.isValid_spec|].
  split; [exact UsernameProps.permitted_spec|].
  do 10 (split; [vm_compute; reflexivity|]).
  split.
  { intros s Hlen. destruct (Username.isValid s) eqn:Hv; [|reflexivity].
    apply UsernameProps.isValid_spec in Hv. destruct Hv as [[[_ H20] _] _]. lia. }
  split; [reflexivity|].
  split.
  - intros a ts Hv. rewrite (submitScore_rejected a ts Hv). cbn.
    repeat split. intros method url body [H|[]]. discriminate.
  - intros a ts g Hv Hg. rewrite (submitScore_accepted a ts g Hv Hg). reflexivity.
Qed.

Lemma username_gate_witness :
  Username.isValid "aaaaaaaaaaaaaaaaaaaaa" = false
  /\ filter isScoreRequest
       (effects_of (submitScore (set_username Examples.session "ROOT2")
                                "2025-01-01T00:00:01.000Z")) = []
  /\ ~ UsernameSpec.Permitted "ADMIN".
Proof.
  destruct username_gate
    as (_ & Hspec & Hadmin & _ & _ & _ & _ & _ & _ & _ & _ & _ & H21 & _ & Hrej & _).
  split; [|split].
  - apply H21. reflexivity.
  - assert (Hv : Username.isValid
                   (username (set_username Examples.session "ROOT2")) = false)
      by (vm_compute; reflexivity).
    exact (proj1 (proj2 (Hrej _ "2025-01-01T00:00:01.000Z" Hv))).
  - intros Hp. apply Hspec in Hp. rewrite Hadmin in Hp. discriminate.
Defined.

(** C8, as the code has it.  [submitScore] does not look at the requests
    still pending: with a valid username and an engine at hand it sends
    one more request, adds it to the pending ones and leaves the submit
    button enabled. *)
Theorem submit_ignores_pending (a : t) (ts : string) (g : Game.t) :
  Username.isValid (username a) = true -> engine a = Some g ->
  let a' := state_of (submitScore a ts) in
  let scoreData :=
    [("username", JStr (username a)); ("score", JInt (Game.getScore g));
     ("difficulty", Game.difficulty_val g); ("timestamp", JStr ts)] in
  submitScore a ts = Normal a' [Fetch "POST" "/api/scores" scoreData]
  /\ pending a' = pending a ++ [scoreData]
  /\ List.length (pending a') = S (List.length (pending a))
  /\ submitDisabled a' = false.
Proof.
  intros Hv Hg. cbn zeta. rewrite (submitScore_accepted a ts g Hv Hg). cbn.
  repeat split. rewrite length_app. cbn. lia.
Qed.

Lemma submit_ignores_pending_witness :
  List.length (pending Examples.session) = 1%nat
  /\ List.length
       (pending (state_of (submitScore Examples.session "2025-01-01T00:00:01.000Z")))
     = S (List.length (pending Examples.session)).
Proof.
  assert (Hv : Username.isValid (username Examples.session) = true)
    by (vm_compute; reflexivity).
  assert (Hg : engine Examples.session
               = Some (Game.run (repeat (Game.Frame 0.5%float) 42)
                         (state_of (Game.start
                            (fst (Game.setDifficulty
                                    (Game.constructor Examples.canvas800x600)
                                    "medium")) 0.5%float))))
    by (vm_compute; reflexivity).
  split; [vm_compute; reflexivity|].
  exact (proj1 (proj2 (proj2
    (submit_ignores_pending _ "2025-01-01T00:00:01.000Z" _ Hv Hg)))).
Defined.

(** C8 fails on the code: in a session whose first submission has not been
    answered, a second click on submit with the same valid username sends
    a second request. *)
Lemma second_submit_is_sent :
  List.length (pending Examples.session) = 1%nat
  /\ currentScreen Examples.session = gameOver
  /\ Username.isValid (username Examples.session) = true
  /\ throws (handle (ClickSubmitScore "2025-01-01T00:00:01.000Z") Examples.session)
     = false
  /\ effects_of (handle (ClickSubmitScore "2025-01-01T00:00:01.000Z") Examples.session)
     = [Fetch "POST" "/api/scores"
          [("username", JStr "Player_1"); ("score", JInt 0);
           ("difficulty", JStr "medium");
           ("timestamp", JStr "2025-01-01T00:00:01.000Z")]]
  /\ List.length
       (pending (state_of (handle (ClickSubmitScore "2025-01-01T00:00:01.000Z")
                                  Examples.session))) = 2%nat.
Proof. repeat split; vm_compute; reflexivity. Qed.

(** *** The screens and the engine *)

Lemma scoreRecord_quiet l :
  Forall (fun e => GameInv.isScoreRecord e = true) l ->
  Forall (fun e => isGameEnded e = false) l.
Proof.
  apply Forall_impl. intros [level message data| | | | | | | |]; cbn;
    try discriminate. intros H. apply String.eqb_eq in H. now subst.
Qed.

Lemma advance_quiet c rnd g :
  Forall (fun e => isGameEnded e = false) (snd (Game.advance c rnd g)).
Proof.
  rewrite GameProps.advance_unfold. cbn [snd]. apply Forall_app. split.
  - apply scoreRecord_quiet, GameProps.filterWalls_log.
  - destruct (GameProps.checkCollisions_cases
                (fst (Game.retire (Game.scroll c (Game.generate c rnd (Game.physics c g))))))
      as [[-> _]|[[-> _]|[-> _]]]; cbn; repeat constructor.
Qed.

Lemma update_quiet g rnd :
  Forall (fun e => isGameEnded e = false) (effects_of (Game.update g rnd)).
Proof.
  unfold Game.update.
  destruct (negb (Game.gameRunning g) || Game.gameOver g); [constructor|].
  destruct (Game.config g) as [c|]; [|constructor].
  pose proof (advance_quiet c rnd g) as H.
  now destruct (Game.advance c rnd g).
Qed.

Lemma gameLoop_quiet g rnd :
  Forall (fun e => isGameEnded e = false) (effects_of (Game.gameLoop g rnd)).
Proof.
  unfold Game.gameLoop. destruct (Game.gameRunning g); [|constructor].
  pose proof (update_quiet g rnd) as H.
  destruct (Game.update g rnd); cbn in *; [|exact H].
  apply Forall_app. split; [exact H | repeat constructor].
Qed.

Lemma start_quiet g rnd :
  Forall (fun e => isGameEnded e = false) (effects_of (Game.start g rnd)).
Proof.
  unfold Game.start, Game.start_prefix.
  pose proof (gameLoop_quiet
    (Game.set_gameOver (Game.set_gameRunning (Game.reset g) true) false) rnd) as H.
  destruct (Game.gameLoop _ rnd); cbn in *; repeat constructor; exact H.
Qed.

Lemma handleKeyPress_quiet g code :
  Forall (fun e => isGameEnded e = false) (effects_of (Game.handleKeyPress g code)).
Proof.
  unfold Game.handleKeyPress, Game.jump.
  destruct (_ && _ && _); [|constructor].
  destruct (Game.config g); cbn; repeat constructor.
Qed.

(** Delivering the engine's events shows the game-over screen or leaves
    the screen alone, keeps the engine reference and writes no record of
    a stopped game. *)
Lemma deliver_facts a o :
  (currentScreen (fst (deliver a o)) = currentScreen a
   \/ currentScreen (fst (deliver a o)) = gameOver)
  /\ engine (fst (deliver a o)) = engine a
  /\ (Forall (fun e => isGameEnded e = false) o ->
      Forall (fun e => isGameEnded e = false) (snd (deliver a o))).
Proof.
  revert a; induction o as [|e o IH]; intros a; cbn [deliver].
  - cbn. repeat split; auto.
  - set (step := match e with
                 | DispatchEvent type detail =>
                     if (type =? "gameOver")%string then handleGameOver a detail
                     else (a, [])
                 | _ => (a, [])
                 end).
    assert (Hstep : (currentScreen (fst step) = currentScreen a
                     \/ currentScreen (fst step) = gameOver)
                    /\ engine (fst step) = engine a
                    /\ Forall (fun e => isGameEnded e = false) (snd step)).
    { unfold step. destruct e; cbn; try (repeat split; auto; fail).
      destruct (type =? "gameOver")%string; cbn; repeat split; auto;
        repeat constructor. }
    destruct step as [a1 o1]. cbn [fst snd] in Hstep.
    destruct Hstep as (S1 & S2 & S3).
    specialize (IH a1). destruct (deliver a1 o) as [a2 o2]. cbn [fst snd] in *.
    destruct IH as (I1 & I2 & I3). split; [|split].
    + destruct I1 as [I1|I1]; [rewrite I1; exact S1 | now right].
    + congruence.
    + intros H. inversion H; subst. constructor; [assumption|].
      apply Forall_app. split; auto.
Qed.

Lemma onEngine_facts a g r :
  engine a = Some g ->
  Forall (fun e => isGameEnded e = false) (effects_of r) ->
  (currentScreen (state_of (onEngine a r)) = currentScreen a
   \/ currentScreen (state_of (onEngine a r)) = gameOver)
  /\ engine (state_of (onEngine a r)) = Some (state_of r)
  /\ Forall (fun e => isGameEnded e = false) (effects_of (onEngine a r)).
Proof.
  intros Hg Hq. unfold onEngine. destruct r as [g' o|e g' o]; cbn in Hq |- *.
  - destruct (deliver_facts (set_engine a (Some g')) o) as (D1 & D2 & D3).
    destruct (deliver _ o) as [a' o']. cbn in *. auto.
  - destruct (deliver_facts (set_engine a (Some g')) o) as (D1 & D2 & D3).
    destruct (deliver _ o) as [a' o']. cbn in *. auto.
Qed.

Lemma startGame_facts a rnd :
  currentScreen (state_of (startGame a rnd)) <> menu
  /\ Forall (fun e => isGameEnded e = false) (effects_of (startGame a rnd)).
Proof.
  unfold startGame. cbn [showScreen Game.setDifficulty fst snd].
  set (a1 := set_screen a game).
  set (r := Game.start _ rnd).
  pose proof (start_quiet
    (fst (Game.setDifficulty (Game.constructor (canvas a1)) (selectedDifficulty a1)))
    rnd) as Hq.
  cbn [Game.setDifficulty fst] in Hq. fold r in Hq.
  assert (H : (currentScreen (state_of (onEngine a1 r)) = game
               \/ currentScreen (state_of (onEngine a1 r)) = gameOver)
              /\ Forall (fun e => isGameEnded e = false) (effects_of (onEngine a1 r))).
  { unfold onEngine. destruct r as [g' o|e g' o]; cbn in Hq |- *;
      destruct (deliver_facts (set_engine a1 (Some g')) o) as (D1 & D2 & D3);
      destruct (deliver _ o) as [a' o']; cbn in *; auto. }
  destruct H as [Hs Hf].
  destruct (onEngine a1 r) as [a2 o3|e a2 o3]; cbn in *; split;
    try (destruct Hs as [-> | ->]; discriminate);
    repeat constructor; exact Hf.
Qed.

(** C9, as the code has it.  "Back to menu" shows the menu and leaves
    [this.game] as it is.  No listener calls [stop]: whatever the trigger
    and the state, no "Game ended" record is written.  The menu is entered
    from another screen by the two back buttons only, and they leave the
    engine, running or not, untouched. *)
Theorem controller_never_stops (tr : Trigger) (a : t) :
  Forall (fun e => isGameEnded e = false) (effects_of (handle tr a))
  /\ handle ClickBackToMenu a
     = Normal (set_screen a menu)
              [Log "debug" "Screen changed" [("screen", JStr "menu")]]
  /\ engine (state_of (handle ClickBackToMenu a)) = engine a
  /\ (currentScreen a <> menu ->
      currentScreen (state_of (handle tr a)) = menu ->
      (tr = ClickBackToMenu \/ tr = ClickBackFromLeaderboard)
      /\ engine (state_of (handle tr a)) = engine a).
Proof.
  split; [|split; [reflexivity | split; [reflexivity|]]].
  - destruct tr; cbn [handle].
    + cbn. repeat constructor.
    + apply startGame_facts.
    + cbn. repeat constructor.
    + unfold submitScore, validateUsername.
      destruct (Username.isValid (username a)); cbn; [|repeat constructor].
      destruct (engine a); cbn; repeat constructor.
    + apply startGame_facts.
    + cbn. repeat constructor.
    + cbn. repeat constructor.
    + constructor.
    + destruct (engine a) as [g|] eqn:Hg; [|constructor].
      apply (onEngine_facts a g _ Hg), handleKeyPress_quiet.
    + destruct (engine a) as [g|] eqn:Hg; [|constructor].
      apply (onEngine_facts a g _ Hg), gameLoop_quiet.
    + unfold submitSettled. destruct (nth_error (pending a) i); [|constructor].
      destruct r; cbn; repeat constructor.
  - intros Hn Hm. destruct tr; cbn [handle] in Hm |- *.
    + cbn in Hm. contradiction.
    + now destruct (startGame_facts a rnd).
    + cbn in Hm. discriminate.
    + exfalso. unfold submitScore, validateUsername in Hm.
      destruct (Username.isValid (username a)); cbn in Hm; [|contradiction].
      destruct (engine a); cbn in Hm; contradiction.
    + now destruct (startGame_facts a rnd).
    + auto.
    + auto.
    + cbn in Hm. contradiction.
    + exfalso. destruct (engine a) as [g|] eqn:Hg; [|cbn in Hm; contradiction].
      destruct (onEngine_facts a g (Game.handleKeyPress g code) Hg
                  (handleKeyPress_quiet g code)) as ([E|E] & _);
        rewrite E in Hm; [contradiction | discriminate].
    + exfalso. destruct (engine a) as [g|] eqn:Hg; [|cbn in Hm; contradiction].
      destruct (onEngine_facts a g (Game.gameLoop g rnd) Hg
                  (gameLoop_quiet g rnd)) as ([E|E] & _);
        rewrite E in Hm; [contradiction | discriminate].
    + exfalso. unfold submitSettled in Hm.
      destruct (nth_error (pending a) i); [|cbn in Hm; contradiction].
      destruct r; cbn in Hm; contradiction.
Qed.

Lemma controller_never_stops_witness :
  currentScreen Examples.session <> menu
  /\ currentScreen (state_of (handle ClickBackToMenu Examples.session)) = menu
  /\ engine (state_of (handle ClickBackToMenu Examples.session))
     = engine Examples.session.
Proof.
  assert (H1 : currentScreen Examples.session <> menu)
    by (vm_compute; discriminate).
  assert (H2 : currentScreen (state_of (handle ClickBackToMenu Examples.session)) = menu)
    by (vm_compute; reflexivity).
  split; [exact H1|]. split; [exact H2|].
  exact (proj2 (proj2 (proj2 (proj2
    (controller_never_stops ClickBackToMenu Examples.session))) H1 H2)).
Defined.

(** C9 fails on the code: on the game-over screen, with the engine of the
    finished game in [this.game], "back to menu" shows the menu and the
    engine is still there; and on the game screen, with the engine
    running, the same handler shows the menu and the engine runs on. *)
Lemma backToMenu_keeps_engine :
  currentScreen Examples.session = gameOver
  /\ currentScreen (state_of (handle ClickBackToMenu Examples.session)) = menu
  /\ engine (state_of (handle ClickBackToMenu Examples.session)) <> None
  /\ currentScreen Examples.playing = game
  /\ option_map Game.gameRunning (engine Examples.playing) = Some true
  /\ currentScreen (state_of (handle ClickBackToMenu Examples.playing)) = menu
  /\ option_map Game.gameRunning
       (engine (state_of (handle ClickBackToMenu Examples.playing))) = Some true
  /\ filter isGameEnded (effects_of (handle ClickBackToMenu Examples.playing)) = [].
Proof.
  repeat split; try (vm_compute; reflexivity).
  vm_compute. discriminate.
Qed.

End AppProps.


(** ** More properties of the engine *)

Module GameMore.
Import Game GameInv GameProps Trace Layout.

(** *** What a reachable engine keeps *)

Lemma advance_flags c rnd s :
  let s' := fst (advance c rnd s) in
  (gameOver s' = true /\ gameRunning s' = false)
  \/ (gameOver s' = gameOver s /\ gameRunning s' = gameRunning s
      /\ snd (advance c rnd s)
         = snd (filterWalls (scrolledWalls c rnd s) (score s))).
Proof.
  cbn zeta. rewrite advance_unfold. cbn [fst snd].
  set (s1 := fst (retire _)).
  assert (H1 : gameOver s1 = gameOver s /\ gameRunning s1 = gameRunning s).
  { unfold s1. rewrite retire_spec. cbn.
    destruct (generate_frame c rnd s) as (_ & _ & _ & _ & G5 & G6 & _).
    now rewrite G5, G6. }
  destruct (checkCollisions_cases s1) as [(E & _)|[(E & _)|(E & _)]];
    rewrite E; cbn; [right | left | left]; auto.
  destruct H1 as [-> ->]. now rewrite app_nil_r.
Qed.

Lemma scrolledWalls_right c rnd s :
  0 < Config.wallSpeed c ->
  Forall (fun w => Wall.x w <= width s) (walls s) ->
  Forall (fun w => Wall.x w <= width s) (scrolledWalls c rnd s).
Proof.
  intros Hsp Hr. unfold scrolledWalls, scroll, generate. cbn [walls set_walls].
  apply Forall_forall. intros w Hin. apply in_map_iff in Hin.
  destruct Hin as (v & <- & Hv). cbn.
  assert (Hx : Wall.x v <= width s).
  { destruct (wallDue c (physics c s));
      cbn [walls generateWall set_walls set_lastWallX physics set_ghosty] in Hv.
    - apply in_app_or in Hv. destruct Hv as [Hv|[<-|[]]].
      + rewrite Forall_forall in Hr. now apply Hr.
      + cbn. lia.
    - rewrite Forall_forall in Hr. now apply Hr. }
  lia.
Qed.

Lemma Layout_advance cv c rnd s :
  Inv s -> config s = Some c -> Layout cv s -> Layout cv (fst (advance c rnd s)).
Proof.
  intros HI Hc [L1 L2 L3 L4 L5 L6 L7 L8].
  destruct (tableConfig_bounds c (inv_config s HI c Hc)) as [Hsp _].
  destruct (advance_fields c rnd s) as (Ew & _ & Ec & Ewd & Eh & Ed & _ & Eg).
  constructor.
  - now rewrite Ewd.
  - now rewrite Eh.
  - now rewrite Eg.
  - now rewrite Eg.
  - now rewrite Eg.
  - rewrite Ew, Ewd. apply Forall_forall. intros w Hin.
    apply filter_In in Hin. destruct Hin as [Hin _].
    pose proof (scrolledWalls_right c rnd s (proj1 Hsp) L6) as Hall.
    rewrite Forall_forall in Hall. now apply Hall.
  - destruct (advance_flags c rnd s) as [[_ H]|[Ho [Hr _]]]; [auto|].
    rewrite Ho, Hr. exact L7.
  - now rewrite Ec, Ed.
Qed.

Lemma Layout_update cv s rnd :
  Inv s -> Layout cv s -> Layout cv (state_of (update s rnd)).
Proof.
  intros HI HL. unfold update.
  destruct (negb (gameRunning s) || gameOver s); [exact HL|].
  destruct (config s) as [c|] eqn:Hc; [|exact HL].
  pose proof (Layout_advance cv c rnd s HI Hc HL) as HA.
  now destruct (advance c rnd s).
Qed.

Lemma Layout_gameLoop cv s rnd :
  Inv s -> Layout cv s -> Layout cv (state_of (gameLoop s rnd)).
Proof.
  intros HI HL. unfold gameLoop. destruct (gameRunning s); [|exact HL].
  pose proof (Layout_update cv s rnd HI HL) as HU.
  now destruct (update s rnd).
Qed.

Lemma Layout_start_prefix cv s :
  Layout cv s -> Layout cv (fst (start_prefix s)).
Proof.
  intros [L1 L2 L3 L4 L5 L6 L7 L8]. constructor; cbn; auto; discriminate.
Qed.

Lemma Layout_call cv c s :
  Inv s -> Layout cv s -> Layout cv (state_of (call c s)).
Proof.
  intros HI HL. destruct c as [d|rnd| |code|rnd|rnd]; cbn [call].
  - destruct HL as [L1 L2 L3 L4 L5 L6 L7 L8]. constructor; cbn; auto.
  - unfold start.
    pose proof (Layout_gameLoop cv _ rnd
      (Inv_flags _ true false (Inv_reset s HI)) (Layout_start_prefix cv s HL)) as HG.
    cbn [start_prefix fst snd] in *. now destruct (gameLoop _ rnd).
  - destruct HL as [L1 L2 L3 L4 L5 L6 L7 L8]. constructor; cbn; auto.
  - unfold handleKeyPress, jump.
    destruct (_ && _ && _); [|exact HL].
    destruct (config s); [|exact HL].
    destruct HL as [L1 L2 L3 L4 L5 L6 L7 L8]. constructor; cbn; auto.
  - now apply Layout_update.
  - now apply Layout_gameLoop.
Qed.

Lemma reachable_Layout cv s : reachable cv s -> Layout cv s.
Proof.
  induction 1 as [|c s Hs IH].
  - constructor; cbn; auto; discriminate.
  - apply Layout_call; [now apply (reachable_Inv cv) | exact IH].
Qed.

Lemma update_profile s rnd :
  difficulty (state_of (update s rnd)) = difficulty s
  /\ config (state_of (update s rnd)) = config s.
Proof.
  unfold update. destruct (negb (gameRunning s) || gameOver s); [split; reflexivity|].
  destruct (config s) as [c|] eqn:Hc; [|cbn; auto].
  destruct (advance_fields c rnd s) as (_ & _ & Ec & _ & _ & Ed & _).
  destruct (advance c rnd s). cbn in *. split; congruence.
Qed.

Lemma start_profile s rnd :
  difficulty (state_of (start s rnd)) = difficulty s
  /\ config (state_of (start s rnd)) = config s.
Proof.
  unfold start, gameLoop. cbn [start_prefix fst snd].
  set (s1 := set_gameOver (set_gameRunning (reset s) true) false).
  change (gameRunning s1) with true. cbn iota.
  pose proof (update_profile s1 rnd) as H.
  destruct (update s1 rnd); exact H.
Qed.

Lemma call_difficulty c s :
  difficulty (state_of (call c s))
  = match c with SetDifficulty d => Some d | _ => difficulty s end.
Proof.
  destruct c as [d|rnd| |code|rnd|rnd]; cbn [call].
  - reflexivity.
  - apply start_profile.
  - reflexivity.
  - unfold handleKeyPress, jump.
    destruct (String.eqb code "Space" && gameRunning s && negb (gameOver s));
      [|reflexivity].
    now destruct (config s).
  - apply update_profile.
  - unfold gameLoop. destruct (gameRunning s); [|reflexivity].
    pose proof (update_profile s rnd) as [H _]. now destruct (update s rnd).
Qed.

Lemma plain_name cv s :
  Plain.reachable cv s ->
  forall d, difficulty s = Some d -> Plain.inherited d = false.
Proof.
  induction 1 as [|c s Hc Hs IH]; intros d Hd; [discriminate|].
  rewrite call_difficulty in Hd. destruct c; cbn in Hc; try (now apply IH).
  injection Hd as <-. now apply negb_true_iff in Hc.
Qed.

(** X1.  The engine never changes its size or the actor's box: the playfield
    is the canvas it was built on, walls are born at its right edge, and
    the actor stays at x = 100, 40 wide and 40 high, for the whole life of
    the engine. *)
Theorem geometry_fixed (cv : Canvas) (s : t) :
  reachable cv s ->
  width s = canvas_width cv
  /\ height s = Z2float (canvas_height cv)
  /\ lastWallX s = canvas_width cv
  /\ Ghosty.x (ghosty s) = 100
  /\ Ghosty.width (ghosty s) = 40
  /\ Ghosty.height (ghosty s) = 40%float.
Proof.
  intros Hr. destruct (reachable_Layout cv s Hr) as [L1 L2 L3 L4 L5 _ _ _].
  pose proof (inv_lastWallX s (reachable_Inv cv s Hr)) as Hl.
  repeat split; auto. congruence.
Qed.

Lemma geometry_fixed_witness :
  width Examples.firstWallLeaving = 800
  /\ Ghosty.x (ghosty Examples.firstWallLeaving) = 100.
Proof.
  assert (R : reachable Examples.canvas800x600 Examples.firstWallLeaving)
    by (apply (reachable_by_run _
          (SetDifficulty "easy" :: Start 0.5%float
           :: List.concat (repeat Examples.hop 11)));
        vm_compute; reflexivity).
  destruct (geometry_fixed _ _ R) as (H1 & _ & _ & H4 & _).
  split; [exact H1 | exact H4].
Defined.

Lemma plain_config cv s :
  Plain.reachable cv s ->
  (exists d, difficulty s = Some d
             /\ Plain.inherited d = false
             /\ config s = difficulties d
             /\ Plain.lookup d = match config s with
                                 | Some c => Plain.Profile c
                                 | None => Plain.Undefined
                                 end)
  \/ (difficulty s = None /\ config s = None).
Proof.
  intros Hp. pose proof (plain_name cv s Hp) as Hn.
  pose proof (lay_config cv s (reachable_Layout cv s (plain_reachable cv s Hp))) as Hc.
  unfold getDifficulty in Hc. destruct (difficulty s) as [d|]; [left|right; auto].
  specialize (Hn d eq_refl). exists d. split; [reflexivity|].
  split; [exact Hn|]. split; [exact Hc|].
  rewrite Hc. unfold Plain.lookup. rewrite Hn. now destruct (difficulties d).
Qed.

(** X2.  Over calls that give [setDifficulty] no name the table inherits
    from [Object.prototype], the bound profile is always what the table
    holds for the bound name: the profile of a key of the table, and
    [undefined] when the name is no key of it or no name was given. *)
Theorem config_follows_difficulty (cv : Canvas) (s : t) :
  Plain.reachable cv s ->
  match getDifficulty s with
  | Some d => Plain.inherited d = false
              /\ config s = difficulties d
              /\ Plain.lookup d = match config s with
                                  | Some c => Plain.Profile c
                                  | None => Plain.Undefined
                                  end
  | None => config s = None
  end.
Proof.
  intros Hp. unfold getDifficulty.
  destruct (plain_config cv s Hp) as [(d & -> & H)|[-> H]]; exact H.
Qed.

Lemma config_follows_difficulty_witness :
  config (state_of (call (SetDifficulty "insane") Examples.started)) = None
  /\ Plain.lookup "insane" = Plain.Undefined.
Proof.
  assert (R : Plain.reachable Examples.canvas800x600
                (state_of (call (SetDifficulty "insane") Examples.started)))
    by (apply (plain_by_run _
          [SetDifficulty "easy"; Start 0.5%float; SetDifficulty "insane"]);
        vm_compute; reflexivity).
  destruct (config_follows_difficulty _ _ R) as (_ & H2 & H3).
  split; [exact H2 | exact H3].
Defined.

(** *** The walls of a run *)

Lemma spaced_span w rest hi :
  StronglySorted spaced (w :: rest) ->
  Forall (fun a => Wall.x a <= hi) (w :: rest) ->
  Wall.x w + 250 * Z.of_nat (List.length rest) <= hi.
Proof.
  revert w; induction rest as [|v rest IH]; intros w Hs Hh.
  - inversion Hh; subst. cbn. lia.
  - inversion Hs as [|? ? Hrest Hall]; subst. inversion Hh; subst.
    inversion Hall; subst. specialize (IH v Hrest H2).
    unfold spaced in *. cbn [List.length]. lia.
Qed.

(** X3.  In every state the engine reaches by calls that give
    [setDifficulty] no name the table inherits from [Object.prototype], the
    walls stand in the order they were made, left to right and at least
    250 apart, each 60 wide, not yet scored, not wholly left of the
    playfield and not right of its right edge; so there are never more
    than (width + 310) / 250 of them. *)
Theorem walls_layout (cv : Canvas) (s : t) :
  Plain.reachable cv s -> 0 <= canvas_width cv ->
  StronglySorted (fun a b => Wall.x a + 250 <= Wall.x b) (walls s)
  /\ Forall (fun w => -60 <= Wall.x w <= canvas_width cv
                      /\ Wall.width w = 60 /\ Wall.scored w = false) (walls s)
  /\ 250 * Z.of_nat (List.length (walls s)) <= canvas_width cv + 310.
Proof.
  intros Hp Hcw. pose proof (plain_reachable cv s Hp) as Hr.
  destruct (reachable_Inv cv s Hr) as [_ I2 I3 I4 I5 _ _].
  destruct (reachable_Layout cv s Hr) as [L1 _ _ _ _ L6 _ _].
  rewrite L1 in L6. split; [exact I5|]. split.
  - rewrite Forall_forall in *. intros w Hin.
    specialize (I2 w Hin). specialize (I3 w Hin). specialize (I4 w Hin).
    specialize (L6 w Hin). unfold unscored in I2. repeat split; auto; lia.
  - destruct (walls s) as [|w rest]; [cbn; lia|].
    pose proof (spaced_span w rest _ I5 L6) as Hspan.
    inversion I3; inversion I4; subst. cbn [List.length]. lia.
Qed.

Lemma walls_layout_witness :
  (250 * Z.of_nat (List.length (walls Examples.firstWallLeaving)) <= 800 + 310)
  /\ List.length (walls Examples.firstWallLeaving) = 3%nat.
Proof.
  assert (R : Plain.reachable Examples.canvas800x600 Examples.firstWallLeaving)
    by (apply (plain_by_run _
          (SetDifficulty "easy" :: Start 0.5%float
           :: List.concat (repeat Examples.hop 11)));
        vm_compute; reflexivity).
  assert (W : 0 <= canvas_width Examples.canvas800x600) by (cbn; lia).
  split; [|vm_compute; reflexivity].
  exact (proj2 (proj2 (walls_layout _ _ R W))).
Defined.

Lemma overlap_at_most_one g ws :
  Ghosty.x g = 100 -> Ghosty.width g = 40 ->
  Forall (fun w => Wall.width w = 60) ws ->
  StronglySorted spaced ws ->
  (List.length (filter (overlapsWall g) ws) <= 1)%nat.
Proof.
  intros Hx Hw Hall Hs. induction Hs as [|a l Hl IH Ha]; [cbn; lia|].
  inversion Hall as [|? ? Hwa Hwl]; subst. specialize (IH Hwl).
  cbn [filter]. destruct (overlapsWall g a) eqn:Ho; [|exact IH].
  assert (Hnone : filter (overlapsWall g) l = []).
  { clear IH Hl Hall. unfold overlapsWall in Ho. rewrite Hx, Hw, Hwa in Ho.
    apply andb_true_iff in Ho. destruct Ho as [Ho1 _]. apply Z.ltb_lt in Ho1.
    induction l as [|b l IHl]; [reflexivity|].
    inversion Ha; inversion Hwl; subst. cbn [filter].
    rewrite IHl by assumption. unfold overlapsWall at 1. rewrite Hx, Hw.
    unfold spaced in *.
    destruct (Z.ltb_spec (Wall.x b) (100 + 40)); [lia|].
    now rewrite andb_false_r. }
  rewrite Hnone. cbn. lia.
Qed.

(** X4.  The actor is never between the edges of two walls at once: in every
    state the engine can reach at most one wall overlaps its horizontal
    span, so the wall check of [checkCollisions] has at most one wall to
    decide on. *)
Theorem one_wall_at_a_time (cv : Canvas) (s : t) :
  reachable cv s ->
  (List.length (filter (overlapsWall (ghosty s)) (walls s)) <= 1)%nat.
Proof.
  intros Hr.
  destruct (reachable_Inv cv s Hr) as [_ _ I3 _ I5 _ _].
  destruct (reachable_Layout cv s Hr) as [_ _ L3 L4 _ _ _ _].
  now apply overlap_at_most_one.
Qed.

Lemma one_wall_at_a_time_witness :
  (List.length (filter (overlapsWall (ghosty Examples.firstWallLeaving))
                       (walls Examples.firstWallLeaving)) <= 1)%nat.
Proof.
  apply (one_wall_at_a_time Examples.canvas800x600).
  apply (reachable_by_run _
          (SetDifficulty "easy" :: Start 0.5%float
           :: List.concat (repeat Examples.hop 11))).
  vm_compute; reflexivity.
Defined.

Lemma hitsWall_existsb g ws :
  hitsWall g ws = existsb (fun w => overlapsWall g w && outsideGap g w) ws.
Proof.
  induction ws as [|w rest IH]; [reflexivity|]. cbn [hitsWall existsb].
  rewrite IH. destruct (overlapsWall g w), (outsideGap g w); reflexivity.
Qed.

(** X5.  The verdict of the wall loop of [checkCollisions] does not depend on
    the order of the walls, although the loop returns at the first hit: it
    is true exactly when some wall overlaps the actor and leaves it
    outside its gap. *)
Theorem hitsWall_any_order (g : Ghosty.t) (ws ws' : list Wall.t) :
  Permutation ws ws' ->
  hitsWall g ws = hitsWall g ws'
  /\ hitsWall g ws = existsb (fun w => overlapsWall g w && outsideGap g w) ws.
Proof.
  intros Hp. split; [|apply hitsWall_existsb].
  rewrite !hitsWall_existsb.
  induction Hp as [|x l l' _ IH|x y l|l l' l'' _ IH1 _ IH2]; cbn.
  - reflexivity.
  - now rewrite IH.
  - rewrite !orb_assoc. f_equal. apply orb_comm.
  - congruence.
Qed.

Lemma hitsWall_any_order_witness :
  hitsWall (ghosty Examples.firstWallLeaving)
           (rev (walls Examples.firstWallLeaving))
  = hitsWall (ghosty Examples.firstWallLeaving) (walls Examples.firstWallLeaving).
Proof.
  symmetry.
  exact (proj1 (hitsWall_any_order _ _ _ (Permutation_rev _))).
Defined.

(** *** Sequences of calls *)

Lemma run_app cs1 cs2 s : run (cs1 ++ cs2) s = run cs2 (run cs1 s).
Proof. revert s; induction cs1 as [|c cs1 IH]; intros s; cbn; auto. Qed.

Lemma gameLoop_idle s rnd : gameRunning s = false -> gameLoop s rnd = Normal s [].
Proof. intros H. unfold gameLoop. now rewrite H. Qed.

Lemma handleKeyPress_idle s code :
  gameRunning s = false \/ gameOver s = true -> handleKeyPress s code = Normal s [].
Proof.
  intros [H|H]; unfold handleKeyPress; rewrite H; cbn;
    rewrite ?andb_false_r; reflexivity.
Qed.

(** X6.  An engine that is not running does nothing with frames and keys:
    whatever frames arrive and keys are pressed, in any number and order,
    its state stays as it is and nothing is written, drawn or scheduled.
    That is how [stop] and the end of a game end the loop. *)
Theorem idle_engine_inert (s : t) (cs : list Call) :
  gameRunning s = false -> forallb isInput cs = true ->
  run cs s = s /\ effects cs s = [].
Proof.
  intros Hr. induction cs as [|c cs IH]; intros Hin; [split; reflexivity|].
  cbn [forallb] in Hin. apply andb_true_iff in Hin. destruct Hin as [Hc Hcs].
  assert (E : call c s = Normal s []).
  { destruct c; try discriminate; cbn [call].
    - now apply handleKeyPress_idle; left.
    - now apply update_idle; left.
    - now apply gameLoop_idle. }
  cbn [run effects]. rewrite E. cbn [state_of effects_of].
  destruct (IH Hcs) as [-> ->]. split; reflexivity.
Qed.

Lemma idle_engine_inert_witness :
  run [Frame 0.5%float; KeyPress "Space"; Update 0.5%float; Frame 0.5%float]
      (fst (stop Examples.started))
  = fst (stop Examples.started).
Proof.
  assert (H : gameRunning (fst (stop Examples.started)) = false)
    by (vm_compute; reflexivity).
  exact (proj1 (idle_engine_inert _
    [Frame 0.5%float; KeyPress "Space"; Update 0.5%float; Frame 0.5%float]
    H eq_refl)).
Defined.

Lemma gameOverDetails_app o1 o2 :
  gameOverDetails (o1 ++ o2) = gameOverDetails o1 ++ gameOverDetails o2.
Proof.
  induction o1 as [|e o1 IH]; [reflexivity|]. cbn [app gameOverDetails].
  destruct e; auto. destruct (type =? "gameOver")%string; cbn; now rewrite IH.
Qed.

(** X7.  Once a run is over it stays over until [start]: no other call, in any
    number and order, clears the terminal flag, sets the running flag,
    moves the actor or the walls, changes the score or dispatches a
    second [gameOver] event. *)
Theorem game_over_until_start (cv : Canvas) (s : t) (cs : list Call) :
  reachable cv s -> gameOver s = true ->
  forallb (fun c => negb (isStart c)) cs = true ->
  let s' := run cs s in
  gameOver s' = true /\ gameRunning s' = false
  /\ score s' = score s /\ walls s' = walls s /\ ghosty s' = ghosty s
  /\ gameOverDetails (effects cs s) = [].
Proof.
  intros Hreach Ho Hcs. cbn zeta.
  pose proof (lay_flags cv s (reachable_Layout cv s Hreach) Ho) as Hr.
  clear Hreach.
  assert (gen : forall cs s',
    forallb (fun c => negb (isStart c)) cs = true ->
    gameOver s' = true -> gameRunning s' = false ->
    gameOver (run cs s') = true /\ gameRunning (run cs s') = false
    /\ score (run cs s') = score s' /\ walls (run cs s') = walls s'
    /\ ghosty (run cs s') = ghosty s'
    /\ gameOverDetails (effects cs s') = []).
  { clear. induction cs as [|c cs IH]; intros s' Hcs Ho Hr;
      [repeat split; auto|].
    cbn [forallb] in Hcs. apply andb_true_iff in Hcs. destruct Hcs as [Hc Hcs].
    cbn [run effects]. rewrite gameOverDetails_app.
    assert (E : gameOver (state_of (call c s')) = true
                /\ gameRunning (state_of (call c s')) = false
                /\ score (state_of (call c s')) = score s'
                /\ walls (state_of (call c s')) = walls s'
                /\ ghosty (state_of (call c s')) = ghosty s'
                /\ gameOverDetails (effects_of (call c s')) = []).
    { destruct c; try discriminate; cbn [call].
      - cbn. repeat split; auto.
      - cbn. repeat split; auto.
      - rewrite (handleKeyPress_idle s' code (or_intror Ho)). cbn.
        repeat split; auto.
      - rewrite (update_idle s' rnd (or_intror Ho)). cbn. repeat split; auto.
      - rewrite (gameLoop_idle s' rnd Hr). cbn. repeat split; auto. }
    destruct E as (E1 & E2 & E3 & E4 & E5 & E6).
    destruct (IH _ Hcs E1 E2) as (I1 & I2 & I3 & I4 & I5 & I6).
    rewrite E6, I6. repeat split; congruence. }
  now apply gen.
Qed.

Lemma game_over_until_start_witness :
  gameOver (run [KeyPress "Space"; Frame 0.5%float; SetDifficulty "hard";
                 Update 0.5%float; Stop]
                (state_of (update Examples.falling 0.5%float))) = true.
Proof.
  assert (R : reachable Examples.canvas800x600
                (state_of (update Examples.falling 0.5%float)))
    by (apply (reachable_by_run _
          (SetDifficulty "easy" :: Start 0.5%float
           :: repeat (Update 0.5%float) 41));
        vm_compute; reflexivity).
  assert (O : gameOver (state_of (update Examples.falling 0.5%float)) = true)
    by (vm_compute; reflexivity).
  exact (proj1 (game_over_until_start _ _
    [KeyPress "Space"; Frame 0.5%float; SetDifficulty "hard";
     Update 0.5%float; Stop] R O eq_refl)).
Defined.

Lemma update_score_step s rnd :
  Inv s -> score s <= score (state_of (update s rnd)) <= score s + 1.
Proof.
  intros HI. unfold update.
  destruct (negb (gameRunning s) || gameOver s); [cbn; lia|].
  destruct (config s) as [c|] eqn:Hc; [|cbn; lia].
  destruct (scrolledWalls_facts c rnd s HI Hc) as (Hu & _ & _ & Hone).
  destruct (advance_fields c rnd s) as (_ & Esc & _).
  rewrite (filter_unscored _ Hu) in Esc.
  destruct (advance c rnd s) as [s' o]. cbn in *. lia.
Qed.

Lemma call_score_step c s :
  Inv s -> isStart c = false ->
  score s <= score (state_of (call c s))
          <= score s + (if isTick c then 1 else 0).
Proof.
  intros HI Hc. destruct c; try discriminate; cbn [call isTick].
  - cbn. lia.
  - cbn. lia.
  - unfold handleKeyPress, jump. destruct (_ && _ && _); [|cbn; lia].
    destruct (config s); cbn; lia.
  - now apply update_score_step.
  - unfold gameLoop. destruct (gameRunning s); [|cbn; lia].
    pose proof (update_score_step s rnd HI) as H.
    now destruct (update s rnd).
Qed.

(** X8.  The score only goes up between two [start]s, and by at most one for
    each step taken: over any sequence of calls without a [start] it never
    drops, never goes below zero and grows by no more than the number of
    [update]s and frames in the sequence. *)
Theorem score_never_drops (cv : Canvas) (s : t) (cs : list Call) :
  reachable cv s ->
  forallb (fun c => negb (isStart c)) cs = true ->
  0 <= score s
  /\ score s <= score (run cs s)
  /\ score (run cs s) <= score s + Z.of_nat (List.length (filter isTick cs)).
Proof.
  intros Hreach Hcs. pose proof (reachable_Inv cv s Hreach) as HI. clear Hreach.
  split; [apply (inv_score s HI)|].
  revert s HI Hcs. induction cs as [|c cs IH]; intros s HI Hcs; [cbn; lia|].
  cbn [forallb] in Hcs. apply andb_true_iff in Hcs. destruct Hcs as [Hc Hcs].
  apply negb_true_iff in Hc.
  pose proof (call_score_step c s HI Hc) as Hstep.
  destruct (IH _ (Inv_call c s HI) Hcs) as [I1 I2].
  cbn [run filter]. destruct (isTick c); cbn [List.length] in *; lia.
Qed.

Lemma score_never_drops_witness :
  score Examples.started
  <= score (run (List.concat (repeat Examples.hop 12)) Examples.started)
  /\ score (run (List.concat (repeat Examples.hop 12)) Examples.started) = 1.
Proof.
  assert (R : reachable Examples.canvas800x600 Examples.started)
    by (apply (reachable_by_run _ [SetDifficulty "easy"; Start 0.5%float]);
        vm_compute; reflexivity).
  assert (N : forallb (fun c => negb (isStart c))
                      (List.concat (repeat Examples.hop 12)) = true)
    by (vm_compute; reflexivity).
  split; [|vm_compute; reflexivity].
  exact (proj1 (proj2 (score_never_drops _ _ _ R N))).
Defined.

Lemma handleKeyPress_twice s code :
  state_of (handleKeyPress (state_of (handleKeyPress s code)) code)
  = state_of (handleKeyPress s code).
Proof.
  unfold handleKeyPress at 2.
  destruct ((code =? "Space")%string && gameRunning s && negb (gameOver s)) eqn:Hg.
  - unfold jump at 1. destruct (config s) as [c|] eqn:Hc; cbn [state_of].
    + unfold handleKeyPress, jump. cbn. rewrite Hg, Hc. reflexivity.
    + unfold handleKeyPress, jump. rewrite Hg, Hc. reflexivity.
  - cbn [state_of]. unfold handleKeyPress. now rewrite Hg.
Qed.

(** X9.  Pressing the key several times between two frames is pressing it
    once: the last press wins and the presses do not add up, whatever
    follows. *)
Theorem last_press_wins (s : t) (code : string) (n : nat) (cs : list Call) :
  run (repeat (KeyPress code) (S n) ++ cs) s = run (KeyPress code :: cs) s.
Proof.
  rewrite run_app. cbn [run]. f_equal.
  induction n as [|n IH]; [reflexivity|].
  change (repeat (KeyPress code) (S (S n)))
    with (KeyPress code :: repeat (KeyPress code) (S n)).
  cbn [run]. change (run (repeat (KeyPress code) (S n)) ?x)
    with (run (repeat (KeyPress code) (S n)) x).
  cbn [call].
  assert (gen : forall m s0,
    run (repeat (KeyPress code) m) (state_of (handleKeyPress s0 code))
    = state_of (handleKeyPress s0 code)).
  { induction m as [|m IHm]; intros s0; [reflexivity|].
    cbn [repeat run call]. rewrite handleKeyPress_twice. apply IHm. }
  apply gen.
Qed.

(** *** Starting *)

(** X10.  [start] throws away the previous run: what it returns depends on the
    size of the playfield and on the bound difficulty only, not on the
    score, the walls, the actor or the flags it finds. *)
Theorem start_discards_prior_run (s1 s2 : t) (rnd : float) :
  width s1 = width s2 -> height s1 = height s2 ->
  difficulty s1 = difficulty s2 -> config s1 = config s2 ->
  start s1 rnd = start s2 rnd.
Proof.
  intros Hw Hh Hd Hc. unfold start, start_prefix, reset, difficulty_val.
  now rewrite Hw, Hh, Hd, Hc.
Qed.

Lemma start_discards_prior_run_witness :
  start Examples.firstWallLeaving 0.5%float = start Examples.configured 0.5%float.
Proof.
  apply start_discards_prior_run; vm_compute; reflexivity.
Defined.

(** X11.  The first step on an empty list of walls makes exactly one wall,
    whatever the spacing of the profile: born at the right edge, it stands
    one scroll step left of it after the step, 60 wide, unscored, its gap
    as high as the profile says, and the score is untouched. *)
Theorem first_step_makes_one_wall (s : t) (rnd : float) (c : Config.t) :
  gameRunning s = true -> gameOver s = false -> config s = Some c ->
  walls s = [] -> 0 <= width s + 60 - Config.wallSpeed c ->
  let s' := state_of (update s rnd) in
  let gapY := (rnd * (height s - Config.gapSize c - 100) + 50)%float in
  walls s'
  = [Wall.mk (width s - Config.wallSpeed c) gapY
             (gapY + Config.gapSize c)%float
             (height s - (gapY + Config.gapSize c))%float 60 false]
  /\ score s' = score s
  /\ lastWallX s' = width s.
Proof.
  intros Hr Ho Hc Hw Hpos. cbn zeta.
  rewrite (update_running s rnd c Hr Ho Hc). cbn [state_of].
  destruct (advance_fields c rnd s) as (Ew & Esc & _ & _ & _ & _ & _ & _).
  assert (Hws : scrolledWalls c rnd s
    = [Wall.mk (width s - Config.wallSpeed c)
               (rnd * (height s - Config.gapSize c - 100) + 50)%float
               (rnd * (height s - Config.gapSize c - 100) + 50
                + Config.gapSize c)%float
               (height s - (rnd * (height s - Config.gapSize c - 100) + 50
                            + Config.gapSize c))%float 60 false]).
  { unfold scrolledWalls, scroll, generate, wallDue.
    cbn [walls physics set_ghosty]. rewrite Hw.
    unfold generateWall. cbn. now rewrite Hw. }
  rewrite Hws in Ew, Esc. cbn [filter] in Ew, Esc.
  unfold retired in Ew, Esc. cbn [Wall.x Wall.width Wall.scored] in Ew, Esc.
  destruct (Z.ltb_spec (width s - Config.wallSpeed c + 60) 0); [lia|].
  cbn in Ew, Esc. split; [exact Ew|]. split; [lia|].
  rewrite advance_unfold. cbn [fst].
  destruct (checkCollisions_frame
              (fst (retire (scroll c (generate c rnd (physics c s))))))
    as (_ & _ & _ & _ & Hl & _).
  rewrite Hl, retire_spec. cbn. unfold generate, wallDue.
  cbn [walls physics set_ghosty]. rewrite Hw. reflexivity.
Qed.

Lemma first_step_makes_one_wall_witness :
  List.length (walls (state_of (update Examples.atRest 0.5%float))) = 1%nat.
Proof.
  assert (Hr : gameRunning Examples.atRest = true) by (vm_compute; reflexivity).
  assert (Ho : gameOver Examples.atRest = false) by (vm_compute; reflexivity).
  assert (Hc : config Examples.atRest = Some easy) by (vm_compute; reflexivity).
  assert (Hw : walls Examples.atRest = []) by (vm_compute; reflexivity).
  assert (Hp : 0 <= width Examples.atRest + 60 - Config.wallSpeed easy)
    by (vm_compute; discriminate).
  rewrite (proj1 (first_step_makes_one_wall _ 0.5%float easy Hr Ho Hc Hw Hp)).
  reflexivity.
Defined.

(** *** Frames and events *)

Lemma scoreRecords_plain l :
  Forall (fun e => isScoreRecord e = true) l ->
  filter isFrameRequest l = [] /\ gameOverDetails l = [].
Proof.
  induction 1 as [|e l He _ [IH1 IH2]]; [split; reflexivity|].
  destruct e; try discriminate. cbn. auto.
Qed.

Lemma checkCollisions_events s :
  gameOver s = false ->
  filter isFrameRequest (snd (checkCollisions s)) = []
  /\ gameOverDetails (snd (checkCollisions s))
     = if gameOver (fst (checkCollisions s))
       then [gameOverDetail (fst (checkCollisions s))] else [].
Proof.
  intros Ho.
  destruct (checkCollisions_cases s) as [(E & _)|[(E & _)|(E & _)]];
    rewrite E; cbn; (split; [reflexivity|]); [now rewrite Ho | | ]; reflexivity.
Qed.

(** What [update] writes besides telemetry: no frame request, and one
    [gameOver] event, with the final score and the difficulty, exactly when
    it ends the run. *)
Lemma update_events s rnd :
  filter isFrameRequest (effects_of (update s rnd)) = []
  /\ gameOverDetails (effects_of (update s rnd))
     = if gameOver (state_of (update s rnd)) && negb (gameOver s)
       then [gameOverDetail (state_of (update s rnd))] else [].
Proof.
  unfold update.
  destruct (gameRunning s) eqn:Hr; cbn [negb orb];
    [|cbn; split; [reflexivity | now destruct (gameOver s)]].
  destruct (gameOver s) eqn:Ho; [cbn; now rewrite Ho|].
  destruct (config s) as [c|] eqn:Hc; [|cbn; now rewrite Ho].
  rewrite (surjective_pairing (advance c rnd s)). cbn [state_of effects_of].
  rewrite advance_unfold. cbn [fst snd].
  set (s1 := fst (retire _)).
  assert (H1 : gameOver s1 = false).
  { unfold s1. rewrite retire_spec. cbn.
    destruct (generate_frame c rnd s) as (_ & _ & _ & _ & _ & G & _).
    now rewrite G. }
  destruct (scoreRecords_plain _
    (proj1 (filterWalls_log (scrolledWalls c rnd s) (score s)))) as [F1 F2].
  destruct (checkCollisions_events s1 H1) as [C1 C2].
  rewrite filter_app, gameOverDetails_app, F1, F2, C1, C2. cbn.
  now rewrite !andb_true_r.
Qed.

Lemma update_throws s rnd :
  throws (update s rnd) = true
  <-> gameRunning s = true /\ gameOver s = false /\ config s = None.
Proof.
  unfold update. destruct (gameRunning s), (gameOver s); cbn;
    try (split; [discriminate | intros (A & B & C); discriminate]).
  destruct (config s) as [c|].
  - destruct (advance c rnd s). cbn.
    split; [discriminate | intros (_ & _ & H); discriminate].
  - cbn. tauto.
Qed.

(** X12.  In a state reached by calls that give [setDifficulty] no name the
    table inherits from [Object.prototype]: a frame of the loop asks for
    exactly one further frame when it finds the engine running, and for
    none when it finds it stopped or over, so the loop neither multiplies
    nor outlives the run.  [start] asks for one also on an engine whose
    loop is still going.  [start] raises a TypeError exactly when [config]
    is undefined, that is when no name was given or the name given last is
    no key of the table; it has then set the running flag, and asks for
    no frame. *)
Theorem one_frame_request (cv : Canvas) (s : t) (rnd : float) :
  Plain.reachable cv s ->
  filter isFrameRequest (effects_of (gameLoop s rnd))
  = (if gameRunning s && negb (throws (update s rnd))
     then [RequestAnimationFrame] else [])
  /\ filter isFrameRequest (effects_of (start s rnd))
     = (if throws (start s rnd) then [] else [RequestAnimationFrame])
  /\ (throws (start s rnd) = true <-> config s = None)
  /\ (config s = None
      <-> match getDifficulty s with
          | Some d => Plain.lookup d = Plain.Undefined
          | None => True
          end)
  /\ (config s = None ->
      start s rnd
      = Throw (TypeError "gravity") (fst (start_prefix s)) (snd (start_prefix s))
        /\ gameRunning (state_of (start s rnd)) = true).
Proof.
  intros Hp.
  assert (loop : forall s0,
    filter isFrameRequest (effects_of (gameLoop s0 rnd))
    = (if gameRunning s0 && negb (throws (update s0 rnd))
       then [RequestAnimationFrame] else [])
    /\ throws (gameLoop s0 rnd) = gameRunning s0 && throws (update s0 rnd)).
  { intros s0. unfold gameLoop. destruct (gameRunning s0); [|split; reflexivity].
    destruct (update_events s0 rnd) as [F _].
    destruct (update s0 rnd); cbn in *; [|auto].
    rewrite filter_app, F. split; reflexivity. }
  split; [apply loop|].
  assert (U : config s = None
      <-> match getDifficulty s with
          | Some d => Plain.lookup d = Plain.Undefined
          | None => True
          end).
  { unfold getDifficulty.
    destruct (plain_config cv s Hp) as [(d & -> & _ & _ & L)|[-> C]];
      [|now rewrite C].
    rewrite L. destruct (config s); split; congruence. }
  unfold start. cbn [start_prefix fst snd].
  set (s1 := set_gameOver (set_gameRunning (reset s) true) false).
  destruct (loop s1) as [L1 L2]. change (gameRunning s1) with true in L1, L2.
  cbn [andb] in L1, L2.
  assert (T : throws (update s1 rnd) = true <-> config s = None).
  { rewrite update_throws. cbn. intuition. }
  split; [|split; [|split]].
  - destruct (gameLoop s1 rnd); cbn in *; rewrite <- L2 in L1; cbn in L1; exact L1.
  - rewrite <- T, <- L2. now destruct (gameLoop s1 rnd).
  - exact U.
  - intros Hc. unfold gameLoop, update. change (gameRunning s1) with true.
    change (gameOver s1) with false. change (config s1) with (config s).
    rewrite Hc. cbn. split; reflexivity.
Qed.

Lemma one_frame_request_witness :
  throws (start (constructor Examples.canvas800x600) 0.5%float) = true
  /\ filter isFrameRequest (effects_of (start Examples.configured 0.5%float))
     = [RequestAnimationFrame].
Proof.
  assert (R0 : Plain.reachable Examples.canvas800x600
                 (constructor Examples.canvas800x600))
    by apply Plain.reach_new.
  assert (R1 : Plain.reachable Examples.canvas800x600 Examples.configured)
    by (apply (plain_by_run _ [SetDifficulty "easy"]); vm_compute; reflexivity).
  assert (T : throws (start Examples.configured 0.5%float) = false)
    by (vm_compute; reflexivity).
  destruct (one_frame_request _ _ 0.5%float R0) as (_ & _ & H0 & _).
  destruct (one_frame_request _ _ 0.5%float R1) as (_ & H1 & _).
  rewrite T in H1.
  split; [exact (proj2 H0 eq_refl) | exact H1].
Defined.

Lemma start_throws_iff s rnd : throws (start s rnd) = true <-> config s = None.
Proof.
  unfold start, gameLoop. cbn [start_prefix fst snd].
  set (s1 := set_gameOver (set_gameRunning (reset s) true) false).
  change (gameRunning s1) with true. cbn iota.
  pose proof (update_throws s1 rnd) as H.
  change (gameRunning s1) with true in H. change (gameOver s1) with false in H.
  change (config s1) with (config s) in H.
  destruct (update s1 rnd); cbn [throws] in *; rewrite H; tauto.
Qed.

(** *** The gap of a wall *)

Lemma advance_walls_keep (Q : Wall.t -> Prop) c rnd s :
  (forall w x, Q w -> Q (Wall.set_x w x)) ->
  (let gapY := (rnd * (height s - Config.gapSize c - 100) + 50)%float in
   Q (Wall.mk (width s) gapY (gapY + Config.gapSize c)%float
              (height s - (gapY + Config.gapSize c))%float 60 false)) ->
  Forall Q (walls s) -> Forall Q (walls (fst (advance c rnd s))).
Proof.
  intros Hmv Hnew Hall.
  destruct (advance_fields c rnd s) as (Ew & _). rewrite Ew.
  apply Forall_forall. intros w Hin. apply filter_In in Hin. destruct Hin as [Hin _].
  unfold scrolledWalls, scroll, generate in Hin. cbn [walls set_walls] in Hin.
  apply in_map_iff in Hin. destruct Hin as (v & <- & Hv). apply Hmv.
  rewrite Forall_forall in Hall.
  destruct (wallDue c (physics c s));
    cbn [walls generateWall set_walls set_lastWallX physics set_ghosty] in Hv;
    [|now apply Hall].
  apply in_app_or in Hv. destruct Hv as [Hv|[<-|[]]]; [now apply Hall | exact Hnew].
Qed.

(** X13.  Every wall of a run is cut as [generateWall] cut it: the lower segment
    starts one gap below the end of the upper one, the gap being that of a
    profile of the table, and reaches the bottom of the playfield; the
    scroll moves a wall and never reshapes it. *)
Theorem wall_gap_kept (cv : Canvas) (s : t) :
  reachable cv s ->
  Forall (fun w =>
            Wall.bottomHeight w
            = (Z2float (canvas_height cv) - Wall.bottomY w)%float
            /\ exists c, (c = easy \/ c = medium \/ c = hard)
                 /\ Wall.bottomY w = (Wall.topHeight w + Config.gapSize c)%float)
         (walls s).
Proof.
  set (Q := fun w =>
            Wall.bottomHeight w
            = (Z2float (canvas_height cv) - Wall.bottomY w)%float
            /\ exists c, (c = easy \/ c = medium \/ c = hard)
                 /\ Wall.bottomY w = (Wall.topHeight w + Config.gapSize c)%float).
  assert (upd : forall s0 rnd, Inv s0 -> Layout cv s0 ->
            Forall Q (walls s0) -> Forall Q (walls (state_of (update s0 rnd)))).
  { intros s0 rnd HI HL Hall. unfold update.
    destruct (negb (gameRunning s0) || gameOver s0); [exact Hall|].
    destruct (config s0) as [c|] eqn:Hc; [|exact Hall].
    assert (HA : Forall Q (walls (fst (advance c rnd s0)))).
    { apply advance_walls_keep; [| |exact Hall].
      - intros w x Hw. exact Hw.
      - cbn zeta. unfold Q. cbn. rewrite (lay_height cv s0 HL).
        split; [reflexivity|]. exists c. split; [|reflexivity].
        apply (inv_config s0 HI c Hc). }
    now destruct (advance c rnd s0). }
  assert (loop : forall s0 rnd, Inv s0 -> Layout cv s0 ->
            Forall Q (walls s0) -> Forall Q (walls (state_of (gameLoop s0 rnd)))).
  { intros s0 rnd HI HL Hall. unfold gameLoop.
    destruct (gameRunning s0); [|exact Hall].
    pose proof (upd s0 rnd HI HL Hall) as H. now destruct (update s0 rnd). }
  induction 1 as [|c s Hs IH]; [constructor|].
  pose proof (reachable_Inv cv s Hs) as HI.
  pose proof (reachable_Layout cv s Hs) as HL.
  destruct c as [d|rnd| |code|rnd|rnd]; cbn [call].
  - exact IH.
  - unfold start. cbn [start_prefix fst snd].
    pose proof (loop _ rnd (Inv_flags _ true false (Inv_reset s HI))
                  (Layout_start_prefix cv s HL) (Forall_nil Q)) as H.
    cbn [start_prefix fst] in H. now destruct (gameLoop _ rnd).
  - exact IH.
  - unfold handleKeyPress, jump. destruct (_ && _ && _); [|exact IH].
    destruct (config s); exact IH.
  - now apply upd.
  - now apply loop.
Qed.

Lemma wall_gap_kept_witness :
  Forall (fun w =>
            Wall.bottomHeight w
            = (Z2float (canvas_height Examples.canvas800x600) - Wall.bottomY w)%float
            /\ exists c, (c = easy \/ c = medium \/ c = hard)
                 /\ Wall.bottomY w = (Wall.topHeight w + Config.gapSize c)%float)
         (walls Examples.firstWallLeaving).
Proof.
  apply wall_gap_kept.
  apply (reachable_by_run _
          (SetDifficulty "easy" :: Start 0.5%float
           :: List.concat (repeat Examples.hop 11))).
  vm_compute; reflexivity.
Defined.

End GameMore.


(** ** More properties of the controller *)

Module AppMore.
Import App Ui.

(** *** The engine's events, as the controller receives them *)

Lemma deliver_state a o :
  fst (deliver a o)
  = fold_left (fun a' d => fst (handleGameOver a' d)) (Trace.gameOverDetails o) a.
Proof.
  revert a; induction o as [|e o IH]; intros a; [reflexivity|].
  cbn [deliver Trace.gameOverDetails].
  destruct e; try (specialize (IH a); destruct (deliver a o); exact IH).
  destruct (type =? "gameOver")%string; cbn [fold_left].
  - specialize (IH (fst (handleGameOver a detail))).
    destruct (handleGameOver a detail) as [a1 o1]. cbn [fst] in *.
    destruct (deliver a1 o). exact IH.
  - specialize (IH a). destruct (deliver a o). exact IH.
Qed.

Lemma onEngine_state a r :
  state_of (onEngine a r)
  = fold_left (fun a' d => fst (handleGameOver a' d))
              (Trace.gameOverDetails (effects_of r))
              (set_engine a (Some (state_of r))).
Proof.
  unfold onEngine. destruct r as [g o|e g o]; cbn [state_of effects_of];
    rewrite <- deliver_state; now destruct (deliver _ o).
Qed.

Lemma onEngine_throws a r : throws (onEngine a r) = throws r.
Proof.
  unfold onEngine. destruct r as [g o|e g o];
    now destruct (deliver (set_engine a (Some g)) o).
Qed.

(** The state after an engine call: the engine is the one the call left,
    and the screen and the final score change exactly when the call ended
    the run. *)
Lemma onEngine_fields a r (over_in : bool) :
  Trace.gameOverDetails (effects_of r)
  = (if Game.gameOver (state_of r) && negb over_in
     then [Trace.gameOverDetail (state_of r)] else []) ->
  let a' := state_of (onEngine a r) in
  engine a' = Some (state_of r) /\ canvas a' = canvas a
  /\ username a' = username a /\ pending a' = pending a
  /\ selectedDifficulty a' = selectedDifficulty a
  /\ (if Game.gameOver (state_of r) && negb over_in
      then currentScreen a' = gameOver
           /\ finalScore a' = Some (JInt (Game.score (state_of r)))
      else currentScreen a' = currentScreen a
           /\ finalScore a' = finalScore a).
Proof.
  intros Hd. cbn zeta. rewrite onEngine_state, Hd.
  destruct (Game.gameOver (state_of r) && negb over_in); cbn; repeat split.
Qed.

Lemma handleKeyPress_flags g code :
  let g' := state_of (Game.handleKeyPress g code) in
  Game.gameOver g' = Game.gameOver g /\ Game.gameRunning g' = Game.gameRunning g
  /\ Game.score g' = Game.score g
  /\ Trace.gameOverDetails (effects_of (Game.handleKeyPress g code)) = [].
Proof.
  cbn zeta. unfold Game.handleKeyPress, Game.jump.
  destruct (_ && _ && _); [|repeat split].
  destruct (Game.config g); repeat split.
Qed.

Lemma update_flags g rnd :
  Game.gameRunning g = true -> Game.gameOver g = false ->
  let g' := state_of (Game.update g rnd) in
  (Game.gameOver g' = true /\ Game.gameRunning g' = false)
  \/ (Game.gameOver g' = false /\ Game.gameRunning g' = true).
Proof.
  intros Hr Ho. cbn zeta. unfold Game.update. rewrite Hr, Ho. cbn.
  destruct (Game.config g) as [c|]; [|cbn; auto].
  destruct (GameMore.advance_flags c rnd g) as [H|(H1 & H2 & _)].
  - destruct (Game.advance c rnd g). cbn in *. auto.
  - destruct (Game.advance c rnd g). cbn in *. right. split; congruence.
Qed.

Lemma gameLoop_events g rnd :
  (Game.gameOver g = true -> Game.gameRunning g = false) ->
  let g' := state_of (Game.gameLoop g rnd) in
  Trace.gameOverDetails (effects_of (Game.gameLoop g rnd))
  = (if Game.gameOver g' && negb (Game.gameOver g)
     then [Trace.gameOverDetail g'] else [])
  /\ (Game.gameOver g = true -> g' = g)
  /\ (Game.gameRunning g = true -> Game.gameOver g' = false ->
      Game.gameRunning g' = true).
Proof.
  intros Hf. cbn zeta. unfold Game.gameLoop.
  destruct (Game.gameRunning g) eqn:Hr.
  - assert (Ho : Game.gameOver g = false)
      by (destruct (Game.gameOver g); [now specialize (Hf eq_refl) | reflexivity]).
    destruct (GameMore.update_events g rnd) as [_ E].
    pose proof (update_flags g rnd Hr Ho) as F.
    destruct (Game.update g rnd) as [u o|e u o]; cbn in *.
    + rewrite GameMore.gameOverDetails_app, E. cbn. rewrite app_nil_r.
      split; [reflexivity|]. split; [congruence|].
      intros _ Hn. destruct F as [[F _]|[_ F]]; congruence.
    + split; [exact E|]. split; [congruence|].
      intros _ Hn. destruct F as [[F _]|[_ F]]; congruence.
  - cbn. split; [now destruct (Game.gameOver g)|]. split; [auto | discriminate].
Qed.

Lemma start_events g rnd :
  let g' := state_of (Game.start g rnd) in
  Trace.gameOverDetails (effects_of (Game.start g rnd))
  = (if Game.gameOver g' && negb false then [Trace.gameOverDetail g'] else [])
  /\ (Game.gameOver g' = false -> Game.gameRunning g' = true).
Proof.
  cbn zeta. unfold Game.start. cbn [Game.start_prefix fst snd].
  set (g1 := Game.set_gameOver (Game.set_gameRunning (Game.reset g) true) false).
  assert (Hf : Game.gameOver g1 = true -> Game.gameRunning g1 = false)
    by discriminate.
  destruct (gameLoop_events g1 rnd Hf) as (E & _ & R).
  change (Game.gameOver g1) with false in E. specialize (R eq_refl).
  destruct (Game.gameLoop g1 rnd) as [u o|e u o]; cbn in *; auto.
Qed.

(** *** What a session keeps *)

Lemma Coherent_same a a' :
  engine a' = engine a -> canvas a' = canvas a ->
  currentScreen a' = currentScreen a -> finalScore a' = finalScore a ->
  Coherent a -> Coherent a'.
Proof. unfold Coherent. intros -> -> -> ->. auto. Qed.

Lemma Coherent_away a a' :
  engine a' = engine a -> canvas a' = canvas a ->
  currentScreen a' = menu \/ currentScreen a' = leaderboard ->
  Coherent a -> Coherent a'.
Proof.
  unfold Coherent. intros -> -> Hs (H1 & _ & _).
  split; [exact H1|]. split; intros H; destruct Hs; congruence.
Qed.

Lemma onEngine_coherent a r (over_in : bool) :
  Game.reachable (canvas a) (state_of r) ->
  Trace.gameOverDetails (effects_of r)
  = (if Game.gameOver (state_of r) && negb over_in
     then [Trace.gameOverDetail (state_of r)] else []) ->
  (currentScreen a = game ->
   over_in = false
   /\ (Game.gameOver (state_of r) = false -> Game.gameRunning (state_of r) = true)) ->
  (currentScreen a = gameOver ->
   over_in = true /\ Game.gameOver (state_of r) = true
   /\ finalScore a = Some (JInt (Game.score (state_of r)))) ->
  Coherent (state_of (onEngine a r)).
Proof.
  intros Hreach Hd Hg Ho.
  destruct (onEngine_fields a r over_in Hd) as (E & C & _ & _ & _ & F).
  unfold Coherent. rewrite E, C.
  destruct (Game.gameOver (state_of r) && negb over_in) eqn:Hb.
  - destruct F as [Fs Ff]. apply andb_true_iff in Hb. destruct Hb as [Hb _].
    split; [intros g [= <-]; exact Hreach|].
    split; [intros H; congruence|].
    intros _. exists (state_of r). auto.
  - destruct F as [Fs Ff]. rewrite Fs, Ff.
    split; [intros g [= <-]; exact Hreach|]. split.
    + intros H. destruct (Hg H) as [-> Hrun]. rewrite andb_true_r in Hb.
      exists (state_of r). auto.
    + intros H. destruct (Ho H) as (_ & H1 & H2). exists (state_of r). auto.
Qed.

Lemma startGame_state a rnd :
  state_of (startGame a rnd)
  = state_of (onEngine (set_screen a game)
       (Game.start (fst (Game.setDifficulty (Game.constructor (canvas a))
                                            (selectedDifficulty a))) rnd))
  /\ throws (startGame a rnd)
     = throws (Game.start (fst (Game.setDifficulty (Game.constructor (canvas a))
                                                   (selectedDifficulty a))) rnd).
Proof.
  unfold startGame. cbn [showScreen Game.setDifficulty fst snd canvas
                         selectedDifficulty set_screen].
  rewrite <- onEngine_throws with (a := set_screen a game).
  cbn [set_screen]. now destruct (onEngine _ _).
Qed.

Lemma Coherent_handle tr a : Coherent a -> Coherent (state_of (handle tr a)).
Proof.
  intros HC. destruct tr; cbn [handle].
  - apply (Coherent_same a); auto.
  - destruct (startGame_state a rnd) as [-> _].
    set (g1 := fst (Game.setDifficulty _ _)).
    destruct (start_events g1 rnd) as [E R].
    apply (onEngine_coherent _ _ false); auto.
    + apply (Game.reach_call _ (Game.Start rnd)).
      apply (Game.reach_call _ (Game.SetDifficulty (selectedDifficulty a))).
      apply Game.reach_new.
    + discriminate.
  - apply (Coherent_away a); cbn; auto.
  - unfold submitScore, validateUsername.
    destruct (Username.isValid (username a)); cbn [negb];
      [|apply (Coherent_same a); auto].
    cbn [engine set_validation]. destruct (engine a) eqn:Hg;
      apply (Coherent_same a); auto.
  - destruct (startGame_state a rnd) as [-> _].
    set (g1 := fst (Game.setDifficulty _ _)).
    destruct (start_events g1 rnd) as [E R].
    apply (onEngine_coherent _ _ false); auto.
    + apply (Game.reach_call _ (Game.Start rnd)).
      apply (Game.reach_call _ (Game.SetDifficulty (selectedDifficulty a))).
      apply Game.reach_new.
    + discriminate.
  - apply (Coherent_away a); cbn; auto.
  - apply (Coherent_away a); cbn; auto.
  - apply (Coherent_same a); auto.
  - destruct (engine a) as [g|] eqn:Hg; [|exact HC].
    destruct HC as (H1 & H2 & H3).
    destruct (handleKeyPress_flags g code) as (F1 & F2 & F3 & F4).
    apply (onEngine_coherent _ _ (Game.gameOver g)).
    + apply (Game.reach_call _ (Game.KeyPress code)), H1, Hg.
    + rewrite F4, F1. now destruct (Game.gameOver g).
    + intros H. destruct (H2 H) as (g0 & E0 & R0 & O0).
      rewrite Hg in E0. injection E0 as <-. split; [exact O0 | congruence].
    + intros H. destruct (H3 H) as (g0 & E0 & O0 & S0).
      rewrite Hg in E0. injection E0 as <-. repeat split; congruence.
  - destruct (engine a) as [g|] eqn:Hg; [|exact HC].
    destruct HC as (H1 & H2 & H3).
    pose proof (Layout.lay_flags _ _
      (GameMore.reachable_Layout _ _ (H1 g Hg))) as Hf.
    destruct (gameLoop_events g rnd Hf) as (E & I & R).
    apply (onEngine_coherent _ _ (Game.gameOver g)).
    + apply (Game.reach_call _ (Game.Frame rnd)), H1, Hg.
    + exact E.
    + intros H. destruct (H2 H) as (g0 & E0 & R0 & O0).
      rewrite Hg in E0. injection E0 as <-. auto.
    + intros H. destruct (H3 H) as (g0 & E0 & O0 & S0).
      rewrite Hg in E0. injection E0 as <-. rewrite (I O0). auto.
  - unfold submitSettled. destruct (nth_error (pending a) i); [|exact HC].
    destruct r; apply (Coherent_same a); auto.
Qed.

Lemma Coherent_run trs a : Coherent a -> Coherent (run trs a).
Proof.
  revert a; induction trs as [|tr trs IH]; intros a H; [exact H|].
  cbn [run]. apply IH, Coherent_handle, H.
Qed.

Lemma Coherent_constructor cv disabled : Coherent (fst (constructor cv disabled)).
Proof. unfold Coherent. cbn. repeat split; discriminate. Qed.

Lemma fold_canvas ds a :
  canvas (fold_left (fun a' d => fst (handleGameOver a' d)) ds a) = canvas a.
Proof. revert a; induction ds as [|d ds IH]; intros a; cbn; [|rewrite IH]; reflexivity. Qed.

Lemma canvas_handle tr a : canvas (state_of (handle tr a)) = canvas a.
Proof.
  destruct tr; cbn [handle]; try reflexivity.
  - destruct (startGame_state a rnd) as [-> _]. now rewrite onEngine_state, fold_canvas.
  - unfold submitScore, validateUsername.
    destruct (Username.isValid (username a)); cbn; [|reflexivity].
    now destruct (engine a).
  - destruct (startGame_state a rnd) as [-> _]. now rewrite onEngine_state, fold_canvas.
  - destruct (engine a); [|reflexivity]. now rewrite onEngine_state, fold_canvas.
  - destruct (engine a); [|reflexivity]. now rewrite onEngine_state, fold_canvas.
  - unfold submitSettled. destruct (nth_error (pending a) i); [|reflexivity].
    now destruct r.
Qed.

Lemma canvas_run trs a : canvas (run trs a) = canvas a.
Proof.
  revert a; induction trs as [|tr trs IH]; intros a; [reflexivity|].
  cbn [run]. now rewrite IH, canvas_handle.
Qed.

Lemma fold_selected ds a :
  selectedDifficulty (fold_left (fun a' d => fst (handleGameOver a' d)) ds a)
  = selectedDifficulty a
  /\ username (fold_left (fun a' d => fst (handleGameOver a' d)) ds a) = username a
  /\ pending (fold_left (fun a' d => fst (handleGameOver a' d)) ds a) = pending a.
Proof.
  revert a; induction ds as [|d ds IH]; intros a; cbn [fold_left]; [auto|].
  destruct (IH (fst (handleGameOver a d))) as (-> & -> & ->).
  cbn. auto.
Qed.

Lemma selected_handle tr a :
  selectedDifficulty (state_of (handle tr a))
  = match tr with ClickDifficulty d => d | _ => selectedDifficulty a end.
Proof.
  destruct tr; cbn [handle]; try reflexivity.
  - destruct (startGame_state a rnd) as [-> _].
    rewrite onEngine_state. now destruct (fold_selected
      (Trace.gameOverDetails (effects_of (Game.start
         (fst (Game.setDifficulty (Game.constructor (canvas a))
                                  (selectedDifficulty a))) rnd)))
      (set_engine (set_screen a game) (Some (state_of (Game.start
         (fst (Game.setDifficulty (Game.constructor (canvas a))
                                  (selectedDifficulty a))) rnd))))) as [-> _].
  - unfold submitScore, validateUsername.
    destruct (Username.isValid (username a)); cbn; [|reflexivity].
    now destruct (engine a).
  - destruct (startGame_state a rnd) as [-> _].
    rewrite onEngine_state. now destruct (fold_selected
      (Trace.gameOverDetails (effects_of (Game.start
         (fst (Game.setDifficulty (Game.constructor (canvas a))
                                  (selectedDifficulty a))) rnd)))
      (set_engine (set_screen a game) (Some (state_of (Game.start
         (fst (Game.setDifficulty (Game.constructor (canvas a))
                                  (selectedDifficulty a))) rnd))))) as [-> _].
  - destruct (engine a) as [g|]; [|reflexivity]. rewrite onEngine_state.
    now destruct (fold_selected
      (Trace.gameOverDetails (effects_of (Game.handleKeyPress g code)))
      (set_engine a (Some (state_of (Game.handleKeyPress g code))))) as [-> _].
  - destruct (engine a) as [g|]; [|reflexivity]. rewrite onEngine_state.
    now destruct (fold_selected
      (Trace.gameOverDetails (effects_of (Game.gameLoop g rnd)))
      (set_engine a (Some (state_of (Game.gameLoop g rnd))))) as [-> _].
  - unfold submitSettled. destruct (nth_error (pending a) i); [|reflexivity].
    now destruct r.
Qed.

Lemma fold_engine ds a :
  engine (fold_left (fun a' d => fst (handleGameOver a' d)) ds a) = engine a.
Proof. revert a; induction ds as [|d ds IH]; intros a; cbn; [|rewrite IH]; reflexivity. Qed.

Lemma engine_handle tr a :
  engine (state_of (handle tr a))
  = match tr with
    | ClickStartGame rnd | ClickPlayAgain rnd =>
        Some (state_of (Game.start
                (fst (Game.setDifficulty (Game.constructor (canvas a))
                                         (selectedDifficulty a))) rnd))
    | Keydown code =>
        match engine a with
        | Some g => Some (state_of (Game.handleKeyPress g code))
        | None => None
        end
    | AnimationFrame rnd =>
        match engine a with
        | Some g => Some (state_of (Game.gameLoop g rnd))
        | None => None
        end
    | _ => engine a
    end.
Proof.
  destruct tr; cbn [handle]; try reflexivity.
  - destruct (startGame_state a rnd) as [-> _]. now rewrite onEngine_state, fold_engine.
  - unfold submitScore, validateUsername.
    destruct (Username.isValid (username a)); cbn; [|reflexivity].
    destruct (engine a) eqn:He; cbn; now rewrite ?He.
  - destruct (startGame_state a rnd) as [-> _]. now rewrite onEngine_state, fold_engine.
  - destruct (engine a) eqn:He; [|exact He]. now rewrite onEngine_state, fold_engine.
  - destruct (engine a) eqn:He; [|exact He]. now rewrite onEngine_state, fold_engine.
  - unfold submitSettled. destruct (nth_error (pending a) i); [|reflexivity].
    now destruct r.
Qed.

(** In a session in which the difficulty buttons carry no inherited name,
    the selected difficulty is none, and the engine the controller holds
    has been given none. *)
Lemma plain_handle tr a :
  Orderly.allowed tr a = true ->
  Plain.inherited (selectedDifficulty a) = false
  /\ (forall g, engine a = Some g -> Plain.reachable (canvas a) g) ->
  Plain.inherited (selectedDifficulty (state_of (handle tr a))) = false
  /\ (forall g, engine (state_of (handle tr a)) = Some g ->
        Plain.reachable (canvas (state_of (handle tr a))) g).
Proof.
  intros Ha [Hs He]. rewrite selected_handle, engine_handle, canvas_handle.
  assert (fresh : forall rnd,
    Plain.reachable (canvas a)
      (state_of (Game.start
         (fst (Game.setDifficulty (Game.constructor (canvas a))
                                  (selectedDifficulty a))) rnd))).
  { intros rnd. apply (Plain.reach_call _ (Game.Start rnd)); [reflexivity|].
    apply (Plain.reach_call _ (Game.SetDifficulty (selectedDifficulty a)));
      [cbn [Plain.plainCall]; now rewrite Hs | apply Plain.reach_new]. }
  destruct tr; cbn [Orderly.allowed] in Ha; try (split; assumption).
  - split; [now apply negb_true_iff in Ha | exact He].
  - split; [exact Hs|]. intros g [= <-]. apply fresh.
  - split; [exact Hs|]. intros g [= <-]. apply fresh.
  - split; [exact Hs|]. destruct (engine a) as [g0|]; [|discriminate].
    intros g [= <-]. apply (Plain.reach_call _ (Game.KeyPress code)); [reflexivity|].
    now apply He.
  - split; [exact Hs|]. destruct (engine a) as [g0|]; [|discriminate].
    intros g [= <-]. apply (Plain.reach_call _ (Game.Frame rnd)); [reflexivity|].
    now apply He.
Qed.

Lemma plain_run trs a :
  Orderly.orderly trs a = true ->
  Plain.inherited (selectedDifficulty a) = false
  /\ (forall g, engine a = Some g -> Plain.reachable (canvas a) g) ->
  Plain.inherited (selectedDifficulty (run trs a)) = false
  /\ (forall g, engine (run trs a) = Some g -> Plain.reachable (canvas a) g).
Proof.
  revert a; induction trs as [|tr trs IH]; intros a Ho Hi; [exact Hi|].
  cbn [Orderly.orderly] in Ho. apply andb_true_iff in Ho. destruct Ho as [Ha Ho].
  cbn [run]. rewrite <- (canvas_handle tr a). apply IH; [exact Ho|].
  now apply plain_handle.
Qed.

Lemma plain_session cv disabled trs :
  Orderly.orderly trs (fst (constructor cv disabled)) = true ->
  Plain.inherited (selectedDifficulty (run trs (fst (constructor cv disabled)))) = false
  /\ (forall g, engine (run trs (fst (constructor cv disabled))) = Some g ->
        Plain.reachable cv g).
Proof.
  intros Ho. apply (plain_run trs _ Ho). split; [reflexivity | discriminate].
Qed.

(** *** Screens and engine *)

(** X14.  Whatever the user does, in any order, while the game screen shows the
    controller holds an engine that is running and not over; and every
    engine it ever holds is in a state that the engine's own calls reach
    from a fresh engine on the page's canvas. *)
Theorem game_screen_has_running_engine
        (cv : Canvas) (disabled : bool) (trs : list Trigger) :
  let a := run trs (fst (constructor cv disabled)) in
  (currentScreen a = game ->
   exists g, engine a = Some g /\ Game.gameRunning g = true
             /\ Game.gameOver g = false)
  /\ (forall g, engine a = Some g -> Game.reachable cv g).
Proof.
  cbn zeta.
  destruct (Coherent_run trs _ (Coherent_constructor cv disabled)) as (H1 & H2 & _).
  rewrite canvas_run in H1. split; [exact H2 | exact H1].
Qed.

(** X15.  In a session in which a game is started only when the controller
    holds no running engine and the difficulty buttons carry no inherited
    name, so that the engine in [this.game] is the only one that can still
    step or signal: the final score on the game-over screen is the score
    of the engine the controller holds, which is over and no longer
    running; a submission from that screen never fails for want of an
    engine and sends that same score, with the username as typed. *)
Theorem submitted_score_is_final_score
        (cv : Canvas) (disabled : bool) (trs : list Trigger) (ts : string) :
  let a := run trs (fst (constructor cv disabled)) in
  Orderly.orderly trs (fst (constructor cv disabled)) = true ->
  currentScreen a = gameOver ->
  exists g,
    engine a = Some g /\ Plain.reachable cv g
    /\ Game.gameOver g = true /\ Game.gameRunning g = false
    /\ finalScore a = Some (JInt (Game.score g))
    /\ throws (submitScore a ts) = false
    /\ (Username.isValid (username a) = true ->
        exists body,
          effects_of (submitScore a ts) = [Fetch "POST" "/api/scores" body]
          /\ field "score" body = finalScore a
          /\ field "username" body = Some (JStr (username a))).
Proof.
  cbn zeta. intros Hord.
  pose proof (Coherent_run trs _ (Coherent_constructor cv disabled)) as HC.
  destruct (plain_session cv disabled trs Hord) as [_ HP].
  set (a := run trs (fst (constructor cv disabled))) in *. clearbody a.
  destruct HC as (H1 & _ & H3). intros Hs.
  destruct (H3 Hs) as (g & Hg & Ho & Hf).
  exists g. split; [exact Hg|]. split; [exact (HP g Hg)|]. split; [exact Ho|].
  split; [exact (Layout.lay_flags _ _ (GameMore.reachable_Layout _ _ (H1 g Hg)) Ho)|].
  split; [exact Hf|]. split.
  - unfold submitScore, validateUsername.
    destruct (Username.isValid _); cbn; [|reflexivity]. now rewrite Hg.
  - intros Hv. rewrite (AppProps.submitScore_accepted _ ts g Hv Hg).
    eexists. split; [reflexivity|]. rewrite Hf. split; reflexivity.
Qed.

Lemma submitted_score_is_final_score_witness :
  exists g,
    engine (run Sessions.submitted (fst (constructor Examples.canvas800x600 false)))
    = Some g
    /\ finalScore (run Sessions.submitted (fst (constructor Examples.canvas800x600 false)))
       = Some (JInt (Game.score g)).
Proof.
  assert (O : Orderly.orderly Sessions.submitted
                (fst (constructor Examples.canvas800x600 false)) = true)
    by (vm_compute; reflexivity).
  assert (H : currentScreen
                (run Sessions.submitted (fst (constructor Examples.canvas800x600 false)))
              = gameOver) by (vm_compute; reflexivity).
  destruct (submitted_score_is_final_score Examples.canvas800x600 false
              Sessions.submitted "2025-01-01T00:00:01.000Z" O H)
    as (g & Hg & _ & _ & _ & Hf & _).
  exists g. split; [exact Hg | exact Hf].
Defined.

(** X16.  With a selected difficulty that is no name the engine's table
    inherits from [Object.prototype], [startGame] always leaves the
    controller with a fresh engine bound to it.  It raises a TypeError
    exactly when that difficulty is no key of the table, and then the game
    screen shows an engine that is flagged running and never steps.
    Otherwise the game screen shows and the engine runs, unless its first
    step has already ended the run and the game-over screen shows. *)
Theorem startGame_outcome (a : t) (rnd : float) :
  Plain.inherited (selectedDifficulty a) = false ->
  let r := handle (ClickStartGame rnd) a in
  exists g,
    engine (state_of r) = Some g
    /\ Plain.reachable (canvas a) g
    /\ Game.getDifficulty g = Some (selectedDifficulty a)
    /\ Game.config g = Game.difficulties (selectedDifficulty a)
    /\ (throws r = true
        <-> Plain.lookup (selectedDifficulty a) = Plain.Undefined)
    /\ (throws r = true ->
        currentScreen (state_of r) = game /\ Game.gameRunning g = true
        /\ Game.walls g = [] /\ Game.score g = 0)
    /\ currentScreen (state_of r) = (if Game.gameOver g then gameOver else game)
    /\ (Game.gameOver g = false -> Game.gameRunning g = true).
Proof.
  intros Hin. cbn zeta. cbn [handle].
  destruct (startGame_state a rnd) as [-> ->].
  set (g1 := fst (Game.setDifficulty (Game.constructor (canvas a))
                                     (selectedDifficulty a))).
  destruct (start_events g1 rnd) as [E R].
  destruct (onEngine_fields (set_screen a game) (Game.start g1 rnd) false E)
    as (F1 & _ & _ & _ & _ & F6).
  destruct (GameMore.start_profile g1 rnd) as [P1 P2].
  exists (state_of (Game.start g1 rnd)).
  split; [exact F1|]. split.
  { apply (Plain.reach_call _ (Game.Start rnd)); [reflexivity|].
    apply (Plain.reach_call _ (Game.SetDifficulty (selectedDifficulty a)));
      [cbn [Plain.plainCall]; now rewrite Hin | apply Plain.reach_new]. }
  split; [exact P1|]. split; [exact P2|].
  assert (T : throws (Game.start g1 rnd) = true
              <-> Plain.lookup (selectedDifficulty a) = Plain.Undefined).
  { rewrite GameMore.start_throws_iff. change (Game.config g1)
      with (Game.difficulties (selectedDifficulty a)).
    unfold Plain.lookup. rewrite Hin.
    destruct (Game.difficulties (selectedDifficulty a)); split; congruence. }
  split; [exact T|].
  rewrite andb_true_r in F6.
  split.
  { intros Ht. apply GameMore.start_throws_iff in Ht.
    assert (Es : Game.start g1 rnd
                 = Throw (TypeError "gravity") (fst (Game.start_prefix g1))
                         (snd (Game.start_prefix g1))).
    { unfold Game.start, Game.gameLoop, Game.update.
      cbn [Game.start_prefix fst snd].
      set (s1 := Game.set_gameOver (Game.set_gameRunning (Game.reset g1) true) false).
      change (Game.gameRunning s1) with true. change (Game.gameOver s1) with false.
      change (Game.config s1) with (Game.config g1). rewrite Ht. reflexivity. }
    rewrite Es in F6 |- *. cbn in F6 |- *. destruct F6 as [F6 _].
    repeat split; exact F6. }
  split; [|exact R].
  destruct (Game.gameOver (state_of (Game.start g1 rnd))); now destruct F6.
Qed.

Lemma startGame_outcome_witness :
  exists g,
    engine (state_of (handle (ClickStartGame 0.5%float) Sessions.fresh)) = Some g
    /\ Game.getDifficulty g = Some "medium"
    /\ Game.config g = Some Game.medium.
Proof.
  assert (Hin : Plain.inherited (selectedDifficulty Sessions.fresh) = false)
    by (vm_compute; reflexivity).
  destruct (startGame_outcome Sessions.fresh 0.5%float Hin)
    as (g & Hg & _ & Hd & Hc & _).
  exists g. split; [exact Hg|]. split; [exact Hd | exact Hc].
Defined.

(** X17.  In a session in which a game is started only when the controller
    holds no running engine and the difficulty buttons carry no inherited
    name, the engine in [this.game] is the only one whose loop can step.
    The frame that ends its run hands over to the game-over screen within
    the same call and captures the engine's score as the final score; any
    other frame leaves the screen and the final score alone. *)
Theorem frame_hands_over
        (cv : Canvas) (disabled : bool) (trs : list Trigger)
        (g : Game.t) (rnd : float) :
  let a := run trs (fst (constructor cv disabled)) in
  Orderly.orderly trs (fst (constructor cv disabled)) = true ->
  engine a = Some g ->
  let a' := state_of (handle (AnimationFrame rnd) a) in
  let g' := state_of (Game.gameLoop g rnd) in
  Plain.reachable cv g
  /\ engine a' = Some g'
  /\ (if Game.gameOver g' && negb (Game.gameOver g)
      then currentScreen a' = gameOver
           /\ finalScore a' = Some (JInt (Game.score g'))
           /\ Game.gameRunning g' = false
      else currentScreen a' = currentScreen a
           /\ finalScore a' = finalScore a).
Proof.
  cbn zeta. intros Hord.
  destruct (Coherent_run trs _ (Coherent_constructor cv disabled)) as (H1 & _ & _).
  rewrite canvas_run in H1. change (canvas (fst (constructor cv disabled))) with cv in H1.
  destruct (plain_session cv disabled trs Hord) as [_ HP].
  set (a := run trs (fst (constructor cv disabled))) in *. clearbody a.
  intros Hg. specialize (H1 g Hg). specialize (HP g Hg).
  split; [exact HP|]. cbn [handle]. rewrite Hg.
  pose proof (Layout.lay_flags _ _ (GameMore.reachable_Layout _ _ H1)) as Hf.
  destruct (gameLoop_events g rnd Hf) as (E & _ & _).
  destruct (onEngine_fields a (Game.gameLoop g rnd) (Game.gameOver g) E)
    as (F1 & _ & _ & _ & _ & F6).
  split; [exact F1|].
  destruct (Game.gameOver (state_of (Game.gameLoop g rnd))
            && negb (Game.gameOver g)) eqn:Hb; [|exact F6].
  destruct F6 as [F61 F62]. split; [exact F61|]. split; [exact F62|].
  apply andb_true_iff in Hb. destruct Hb as [Hb _].
  apply (Layout.lay_flags cv); [|exact Hb].
  apply GameMore.reachable_Layout, (Game.reach_call _ (Game.Frame rnd)), H1.
Qed.

Lemma frame_hands_over_witness :
  currentScreen
    (run (ClickStartGame 0.5%float :: repeat (AnimationFrame 0.5%float) 34)
         (fst (constructor Examples.canvas800x600 false))) = game
  /\ currentScreen
       (state_of (handle (AnimationFrame 0.5%float)
          (run (ClickStartGame 0.5%float :: repeat (AnimationFrame 0.5%float) 34)
               (fst (constructor Examples.canvas800x600 false))))) = gameOver.
Proof.
  split; [vm_compute; reflexivity|].
  assert (O : Orderly.orderly
                (ClickStartGame 0.5%float :: repeat (AnimationFrame 0.5%float) 34)
                (fst (constructor Examples.canvas800x600 false)) = true)
    by (vm_compute; reflexivity).
  assert (Hg : engine
                 (run (ClickStartGame 0.5%float
                       :: repeat (AnimationFrame 0.5%float) 34)
                      (fst (constructor Examples.canvas800x600 false)))
               = Some (Game.run (Game.SetDifficulty "medium" :: Game.Start 0.5%float
                                 :: repeat (Game.Frame 0.5%float) 34)
                                (Game.constructor Examples.canvas800x600)))
    by (vm_compute; reflexivity).
  destruct (frame_hands_over Examples.canvas800x600 false _ _ 0.5%float O Hg)
    as (_ & _ & H).
  assert (Hb : Game.gameOver (state_of (Game.gameLoop
                  (Game.run (Game.SetDifficulty "medium" :: Game.Start 0.5%float
                             :: repeat (Game.Frame 0.5%float) 34)
                            (Game.constructor Examples.canvas800x600)) 0.5%float))
               && negb (Game.gameOver
                  (Game.run (Game.SetDifficulty "medium" :: Game.Start 0.5%float
                             :: repeat (Game.Frame 0.5%float) 34)
                            (Game.constructor Examples.canvas800x600))) = true)
    by (vm_compute; reflexivity).
  rewrite Hb in H. exact (proj1 H).
Defined.

(** *** Submissions *)

Lemma removeNth_length {A} (l : list A) i x :
  nth_error l i = Some x -> S (List.length (removeNth i l)) = List.length l.
Proof.
  revert i; induction l as [|y l IH]; intros [|i] H; cbn in *; try discriminate.
  - reflexivity.
  - now rewrite (IH i H).
Qed.

(** X18.  A successful response takes its request off the pending ones and empties
    the username field, so a second click on submit is stopped by the gate:
    an alert, the button disabled, no request.  A failed response takes
    the request off too and keeps the username, so the player can try
    again. *)
Theorem success_clears_username (a : t) (i : nat) (d : JsObj) (ts : string) :
  nth_error (pending a) i = Some d ->
  let a1 := state_of (handle (SubmitResponse i Ok) a) in
  username a1 = ""
  /\ S (List.length (pending a1)) = List.length (pending a)
  /\ filter isScoreRequest (effects_of (handle (ClickSubmitScore ts) a1)) = []
  /\ submitDisabled (state_of (handle (ClickSubmitScore ts) a1)) = true
  /\ pending (state_of (handle (ClickSubmitScore ts) a1)) = pending a1
  /\ (forall m,
        username (state_of (handle (SubmitResponse i (NotOk m)) a)) = username a
        /\ username (state_of (handle (SubmitResponse i (Failed m)) a)) = username a
        /\ S (List.length (pending (state_of (handle (SubmitResponse i (NotOk m)) a))))
           = List.length (pending a)
        /\ S (List.length (pending (state_of (handle (SubmitResponse i (Failed m)) a))))
           = List.length (pending a)).
Proof.
  intros Hn. cbn zeta. cbn [handle]. unfold submitSettled. rewrite Hn.
  cbn [state_of fst]. pose proof (removeNth_length _ _ _ Hn) as Hl.
  split; [reflexivity|]. split; [exact Hl|].
  rewrite AppProps.submitScore_rejected by reflexivity. cbn.
  repeat split; auto.
Qed.

Lemma success_clears_username_witness :
  username (state_of (handle (SubmitResponse 0 Ok) Examples.session)) = ""
  /\ filter isScoreRequest
       (effects_of (handle (ClickSubmitScore "2025-01-01T00:00:02.000Z")
                      (state_of (handle (SubmitResponse 0 Ok) Examples.session))))
     = [].
Proof.
  assert (Hn : nth_error (pending Examples.session) 0
               = Some [("username", JStr "Player_1"); ("score", JInt 0);
                       ("difficulty", JStr "medium");
                       ("timestamp", JStr "2025-01-01T00:00:00.000Z")])
    by (vm_compute; reflexivity).
  destruct (success_clears_username _ 0 _ "2025-01-01T00:00:02.000Z" Hn)
    as (H1 & _ & H3 & _).
  split; [exact H1 | exact H3].
Defined.

(** *** The score display *)

(** X19.  [startGame] writes "Score: 0" and nothing more: [startUIUpdates] runs
    its closure once, before [start], when the new engine is not yet
    running, so it writes no score and schedules no frame, for any canvas
    and any difficulty.  The score display is not refreshed during a run. *)
Theorem score_display_written_once (a : t) :
  startGameWrites a = [ScoreText 0]
  /\ (forall g, Game.gameRunning g = false ->
        updateUI (set_engine a (Some g)) = [])
  /\ updateUI (set_engine a None) = [].
Proof.
  split; [reflexivity|]. split; [|reflexivity].
  intros g Hg. unfold updateUI. cbn. now rewrite Hg.
Qed.

(** *** The selected difficulty *)

(** X20.  The difficulty a game is played on is the one of the last difficulty
    button clicked before it was started, or "medium" if none was: no other
    trigger changes the selection, and the engine [startGame] builds is
    bound to it, also when a game is played again. *)
Theorem difficulty_is_last_click
        (cv : Canvas) (disabled : bool) (trs : list Trigger) (rnd : float) :
  let pick := fun d tr => match tr with ClickDifficulty d' => d' | _ => d end in
  let a := run trs (fst (constructor cv disabled)) in
  selectedDifficulty a = fold_left pick trs "medium"
  /\ (exists g,
        engine (state_of (handle (ClickPlayAgain rnd) a)) = Some g
        /\ Game.getDifficulty g = Some (fold_left pick trs "medium"))
  /\ (exists g,
        engine (state_of (handle (ClickStartGame rnd) a)) = Some g
        /\ Game.getDifficulty g = Some (fold_left pick trs "medium")).
Proof.
  cbn zeta.
  assert (sel : forall trs a,
    selectedDifficulty (run trs a)
    = fold_left (fun d tr => match tr with ClickDifficulty d' => d' | _ => d end)
                trs (selectedDifficulty a)).
  { clear. induction trs as [|tr trs IH]; intros a; [reflexivity|].
    cbn [run fold_left]. now rewrite IH, selected_handle. }
  specialize (sel trs (fst (constructor cv disabled))).
  change (selectedDifficulty (fst (constructor cv disabled))) with "medium" in sel.
  split; [exact sel|].
  generalize dependent (run trs (fst (constructor cv disabled))). intros a sel.
  rewrite <- sel.
  assert (H : exists g,
    engine (state_of (startGame a rnd)) = Some g
    /\ Game.getDifficulty g = Some (selectedDifficulty a)).
  { destruct (startGame_state a rnd) as [-> _].
    set (g1 := fst (Game.setDifficulty (Game.constructor (canvas a))
                                       (selectedDifficulty a))).
    destruct (start_events g1 rnd) as [E _].
    destruct (onEngine_fields (set_screen a game) (Game.start g1 rnd) false E)
      as (F1 & _).
    exists (state_of (Game.start g1 rnd)). split; [exact F1|].
    apply (GameMore.start_profile g1 rnd). }
  split; exact H.
Qed.

(** *** A submission and its answer *)

Lemma removeNth_last {A} (l : list A) x : removeNth (List.length l) (l ++ [x]) = l.
Proof. induction l as [|y l IH]; cbn; [reflexivity | now rewrite IH]. Qed.

Lemma nth_error_last {A} (l : list A) x : nth_error (l ++ [x]) (List.length l) = Some x.
Proof. induction l as [|y l IH]; cbn; auto. Qed.

(** X21.  The answer to a submission is matched with what was sent, not with
    what the page shows when it arrives: if the player edits the username
    while the request is pending, the success record still names the
    username and score that were sent, the pending requests are as before
    the click, and the field is emptied, edits included. *)
Theorem answer_reports_what_was_sent
        (a : t) (g : Game.t) (ts edited : string) :
  Username.isValid (username a) = true -> engine a = Some g ->
  let sent := state_of (handle (ClickSubmitScore ts) a) in
  let typed := state_of (handle (InputUsername edited) sent) in
  let answered := handle (SubmitResponse (List.length (pending a)) Ok) typed in
  username typed = edited
  /\ effects_of answered
     = [Log "info" "Score submitted"
            [("username", JStr (username a));
             ("score", JInt (Game.score g));
             ("difficulty", Game.difficulty_val g)];
        Alert "Score submitted successfully!"]
  /\ pending (state_of answered) = pending a
  /\ username (state_of answered) = "".
Proof.
  intros Hv Hg. cbn zeta. cbn [handle].
  rewrite (AppProps.submitScore_accepted a ts g Hv Hg). cbn [state_of].
  unfold submitSettled, validateUsername.
  cbn [fst pending set_pending set_validation set_username username].
  rewrite nth_error_last, removeNth_last. cbn. repeat split.
Qed.

Lemma answer_reports_what_was_sent_witness :
  effects_of
    (handle (SubmitResponse (List.length (pending Examples.session)) Ok)
       (state_of (handle (InputUsername "Someone_else")
          (state_of (handle (ClickSubmitScore "2025-01-01T00:00:03.000Z")
                            Examples.session)))))
  = [Log "info" "Score submitted"
         [("username", JStr "Player_1"); ("score", JInt 0);
          ("difficulty", JStr "medium")];
     Alert "Score submitted successfully!"].
Proof.
  assert (Hv : Username.isValid (username Examples.session) = true)
    by (vm_compute; reflexivity).
  assert (Hg : engine Examples.session
               = Some (Game.run (Game.SetDifficulty "medium" :: Game.Start 0.5%float
                                 :: repeat (Game.Frame 0.5%float) 42)
                                (Game.constructor Examples.canvas800x600)))
    by (vm_compute; reflexivity).
  destruct (answer_reports_what_was_sent Examples.session _
              "2025-01-01T00:00:03.000Z" "Someone_else" Hv Hg) as (_ & E & _).
  rewrite E. vm_compute. reflexivity.
Defined.

End AppMore.


(** ** More properties of the username gate *)

Module UsernameMore.
Import Username UsernameProps.

Lemma inClass_lowerChar c : inClass (lowerChar c) = inClass c.
Proof.
  destruct c as [b0 b1 b2 b3 b4 b5 b6 b7].
  destruct b0, b1, b2, b3, b4, b5, b6, b7; vm_compute; reflexivity.
Qed.

Lemma sameIgnoringCase_pattern u v :
  SameIgnoringCase u v -> patternTest u = patternTest v.
Proof.
  intros H.
  assert (L : forall u v, SameIgnoringCase u v ->
                String.length u = String.length v
                /\ (AllInClass u <-> AllInClass v)).
  { clear. induction u as [|a u IH]; intros [|b v]; cbn; try tauto.
    intros [Hab Huv]. destruct (IH v Huv) as [Hl Ha].
    assert (Hc : InClass a <-> InClass b)
      by (rewrite <- !inClass_spec, <- (inClass_lowerChar a),
                  <- (inClass_lowerChar b), Hab; tauto).
    split; [congruence | tauto]. }
  destruct (L u v H) as [Hl Ha].
  assert (Hiff : patternTest u = true <-> patternTest v = true)
    by (rewrite !patternTest_spec; unfold MatchesPattern; rewrite Hl, Ha; tauto).
  destruct (patternTest u), (patternTest v); intuition congruence.
Qed.

(** X22.  The gate does not look at the case of letters: two usernames that
    differ only in case are both accepted or both rejected. *)
Theorem isValid_ignores_case (u v : string) :
  SameIgnoringCase u v -> isValid u = isValid v.
Proof.
  intros H. unfold isValid, containsInappropriateContent.
  rewrite (sameIgnoringCase_pattern u v H).
  apply sameIgnoringCase_spec in H. now rewrite H.
Qed.

Lemma isValid_ignores_case_witness :
  isValid "RooT_User" = isValid "root_user" /\ isValid "RooT_User" = false.
Proof.
  split; [|vm_compute; reflexivity].
  apply isValid_ignores_case. vm_compute. repeat split.
Defined.

End UsernameMore.


(** ** Properties of the telemetry object *)

Module TelemetryProps.
Import Telemetry.

Lemma invoke_spec tm env m :
  exists line d,
    let e := {| timestamp := now env; service := serviceName tm;
                level := levelOf m; message := line; data := d;
                userAgent := agent env; url := href env |} in
    invoke tm env m
    = ({| serviceName := serviceName tm; logs := logs tm ++ [e] |},
       [ConsoleLog ("[" ++ toUpperCase (levelOf m) ++ "] " ++ line) d;
        Post "http://localhost:8000/logs" (stringify e)]).
Proof. destruct m; cbn [invoke levelOf]; unfold log; do 2 eexists; reflexivity. Qed.

(** X23.  Telemetry is append-only.  Over any sequence of calls of its
    methods the records already kept stay where they are, unchanged; each
    call adds one record at the end, with the level of the method
    ([gameStart], [gameEnd], [scoreSubmitted] and [collision] write at
    level "info"), the service name and the time and page it was made on,
    and posts once the JSON form of that record, in which a field of the
    data that holds [undefined] is left out and a number that is not
    finite is [null].  So [gameStart(undefined)], which an engine started
    with no difficulty makes, keeps a record whose data has the field and
    posts one whose data is empty. *)
Theorem telemetry_appends (ms : list (Env * Method)) (tm : t) :
  let tm' := fst (run ms tm) in
  let sent := posts (snd (run ms tm)) in
  (exists added,
    logs tm' = logs tm ++ added
    /\ sent = map stringify added
    /\ serviceName tm' = serviceName tm
    /\ map level added = map (fun em => levelOf (snd em)) ms
    /\ map timestamp added = map (fun em => now (fst em)) ms
    /\ map url added = map (fun em => href (fst em)) ms
    /\ Forall (fun e => service e = serviceName tm) added)
  /\ (forall env,
        logs (fst (invoke tm env (GameStart JUndefined)))
        = logs tm ++ [{| timestamp := now env; service := serviceName tm;
                         level := "info"; message := "Game started";
                         data := [("difficulty", JUndefined)];
                         userAgent := agent env; url := href env |}]
        /\ posts (snd (invoke tm env (GameStart JUndefined)))
           = [{| body_timestamp := now env; body_service := serviceName tm;
                 body_level := "info"; body_message := "Game started";
                 body_data := [];
                 body_userAgent := agent env; body_url := href env |}])
  /\ (forall env,
        map body_data
            (posts (snd (invoke tm env (GameEnd (JNum nan) (JStr "easy")))))
        = [[("score", JsonNull); ("difficulty", JsonStr "easy")]]).
Proof.
  cbn zeta. split; [|split; [intros env; split; reflexivity | intros env; reflexivity]].
  revert tm. induction ms as [|[env m] ms IH]; intros tm.
  - exists []. cbn. rewrite app_nil_r. repeat split. constructor.
  - cbn [run]. destruct (invoke_spec tm env m) as (line & d & E).
    cbn zeta in E. rewrite E.
    specialize (IH {| serviceName := serviceName tm;
                      logs := logs tm ++ [{| timestamp := now env;
                        service := serviceName tm; level := levelOf m;
                        message := line; data := d; userAgent := agent env;
                        url := href env |}] |}).
    destruct (run ms _) as [tm2 o2]. cbn [fst snd serviceName logs] in *.
    destruct IH as (added & I1 & I2 & I3 & I4 & I5 & I6 & I7).
    exists ({| timestamp := now env; service := serviceName tm;
               level := levelOf m; message := line; data := d;
               userAgent := agent env; url := href env |} :: added).
    cbn [app posts map fst snd level timestamp url].
    rewrite I1, I2, I3, I4, I5, I6, <- app_assoc. repeat split.
    constructor; [reflexivity | exact I7].
Qed.

End TelemetryProps.
